(** * scripts/update_rpc.py: the chain-metadata fetch-and-materialise pipeline

    A shallow embedding of [scripts/update_rpc.py].  Python strings are
    [string], Python [int] is [Z], an insertion-ordered Python [dict] with
    string keys is an association list with the update discipline of
    [dict.__setitem__], and the effects of the script (logging, the HTTP
    request, schema validation, the clock, the generated file and the
    failures of opening and writing it, raised exceptions) are threaded
    through a state-and-exception monad [M]. *)

From Stdlib Require Import String Ascii List ZArith Lia Bool DecimalString.
From Stdlib Require DecimalZ DecimalPos.
Import ListNotations.

Local Open Scope list_scope.
Local Open Scope string_scope.

(* ================================================================== *)
(** ** Python string operations used by the script *)

(** The double quote and the line feed, which the f-strings embed. *)
Definition dq : string := String "034"%char EmptyString.
Definition nl : string := String "010"%char EmptyString.

(** [s.split(sep)] for a one-character separator. *)
Fixpoint str_split (sep : ascii) (s : string) : list string :=
  match s with
  | EmptyString => [EmptyString]
  | String c s' =>
      if Ascii.eqb c sep then EmptyString :: str_split sep s'
      else match str_split sep s' with
           | [] => [String c EmptyString]
           | h :: t => String c h :: t
           end
  end.

(** [pat in s] on strings: the substring test. *)
Fixpoint str_contains (pat s : string) : bool :=
  if String.prefix pat s then true
  else match s with
       | EmptyString => false
       | String _ s' => str_contains pat s'
       end.

(** [x in l] for a list of strings. *)
Definition str_in_list (x : string) (l : list string) : bool :=
  existsb (String.eqb x) l.

(** [str(n)] / [f"{n}"] for an [int]. *)
Definition str_of_int (n : Z) : string :=
  NilZero.string_of_int (Z.to_int n).

(** [urljoin(base, rel)] where [base] ends in a slash and [rel] is a bare
    file name (no scheme, no leading slash, no dot segments): the only way
    the script calls it.  The file name is appended to the base. *)
Definition urljoin (base rel : string) : string := base ++ rel.

(* ================================================================== *)
(** ** Insertion-ordered dictionaries *)

Definition dict (V : Type) : Type := list (string * V).

Definition dict_keys {V} (d : dict V) : list string := map fst d.
Definition dict_items {V} (d : dict V) : list (string * V) := d.

(** [d[k]], [None] standing for [KeyError]. *)
Fixpoint dict_get {V} (d : dict V) (k : string) : option V :=
  match d with
  | [] => None
  | (k', v) :: d' => if String.eqb k' k then Some v else dict_get d' k
  end.

(** [k in d]. *)
Definition dict_has {V} (d : dict V) (k : string) : bool :=
  match dict_get d k with Some _ => true | None => false end.

(** [d[k] = v]: an existing key keeps its position, a new key goes last. *)
Fixpoint dict_set {V} (d : dict V) (k : string) (v : V) : dict V :=
  match d with
  | [] => [(k, v)]
  | (k', v') :: d' =>
      if String.eqb k' k then (k', v) :: d' else (k', v') :: dict_set d' k v
  end.

(** What every Python dict satisfies: no key occurs twice. *)
Definition dict_wf {V} (d : dict V) : Prop := NoDup (dict_keys d).

(** A two-level dict whose every level is a Python dict. *)
Definition dict2_wf {V} (d : dict (dict V)) : Prop :=
  dict_wf d /\ Forall (fun kv => dict_wf (snd kv)) d.

(** The (outer key, inner key, value) triples in iteration order. *)
Definition dict2_flat {V} (d : dict (dict V)) : list (string * string * V) :=
  flat_map (fun kv => map (fun nv => (fst kv, fst nv, snd nv)) (snd kv)) d.

(* ================================================================== *)
(** ** Constants of the script *)

Definition CHAIN_IDS : dict (dict Z) :=
  [ ("base", [("mainnet", 8453%Z); ("sepolia", 84532%Z)]);
    ("ethereum", [("mainnet", 1%Z); ("goerli", 5%Z); ("sepolia", 11155111%Z)]);
    ("gnosis", [("mainnet", 100%Z)]);
    ("polygon", [("mainnet", 137%Z); ("mumbai", 80001%Z)]);
    ("polygon-zkevm", [("mainnet", 1101%Z); ("testnet", 1442%Z)]) ].

Definition INCLUDE_PROTOCOLS : list string := ["http"; "https"].

Definition SOURCE_URL : string :=
  "https://raw.githubusercontent.com/ethereum-lists/chains/master/_data/chains/".

(* ================================================================== *)
(** ** The data model *)

(** A value of type [Any] as JSON delivers it (numbers restricted to
    integers; the script never inspects such a value). *)
#[warnings="-register-all"]
Inductive json : Type :=
| JNull
| JBool (b : bool)
| JInt (z : Z)
| JStr (s : string)
| JList (l : list json)
| JDict (d : list (string * json)).

(** [class Chain(BaseModel)]. *)
Record Chain : Type := mkChain {
  name : string;
  chain : string;
  icon : option string;
  rpc : list string;
  features : option (list (dict string));
  faucets : list string;
  nativeCurrency : dict json;
  infoURL : string;
  shortName : string;
  chainId : Z;
  networkId : Z;
  slip44 : option Z;
  ens : option (dict string);
  explorers : list (dict string)
}.

(** [c.rpc = l]. *)
Definition set_rpc (c : Chain) (l : list string) : Chain :=
  mkChain (name c) (chain c) (icon c) l (features c) (faucets c)
          (nativeCurrency c) (infoURL c) (shortName c) (chainId c)
          (networkId c) (slip44 c) (ens c) (explorers c).

(** What [requests.get] hands back, as far as the script reads it. *)
Record Response : Type := mkResponse {
  status_code : Z;
  text : string
}.

(** The exceptions a run can end with. *)
Inductive exn : Type :=
| Exception (msg : string)     (* [raise Exception(msg)] in [fetch_chain] *)
| ConnectionError              (* [requests.get] itself failed *)
| ValidationError              (* [Chain.model_validate_json] rejected the body *)
| KeyError (key : string)      (* a dict subscript on an absent key *)
| OSError (msg : string)       (* the file could not be opened or written *)
| UnicodeEncodeError.          (* a text the file's encoding cannot hold *)

(** The outside world of one run: the registry source behind
    [requests.get], the pydantic validator of [Chain], the text of
    [datetime.utcnow()], the text of the [CHAIN_CONST_FILE] path, and the
    file system: the exception [open("w")] raises, if it raises, and the
    exception a [write] of a text raises, if it raises, given what the
    file holds by then. *)
Record Env : Type := mkEnv {
  requests_get : string -> option Response;
  model_validate_json : string -> option Chain;
  utcnow : string;
  CHAIN_CONST_FILE : string;
  open_error : option exn;
  write_error : string -> string -> option exn
}.

(** What a run can change: the lines logged so far and the content of the
    generated file ([None]: the file has never been written). *)
Record State : Type := mkState {
  log : list string;
  const_file : option string
}.

(* ================================================================== *)
(** ** The monad of the script: state and exceptions *)

Definition M (A : Type) : Type := State -> (exn + A) * State.

Definition ret {A} (a : A) : M A := fun st => (inr a, st).

Definition raise {A} (e : exn) : M A := fun st => (inl e, st).

Definition bind {A B} (m : M A) (k : A -> M B) : M B :=
  fun st =>
    match m st with
    | (inl e, st') => (inl e, st')
    | (inr a, st') => k a st'
    end.

Notation "x <- m ;; k" := (bind m (fun x => k))
  (at level 61, m at next level, right associativity).
Notation "m ;; k" := (bind m (fun _ => k))
  (at level 61, right associativity).

(** [for x in l: body(x)]. *)
Fixpoint for_each {A} (l : list A) (body : A -> M unit) : M unit :=
  match l with
  | [] => ret tt
  | x :: l' => body x ;; for_each l' body
  end.

(** [for x in l: acc = body(acc, x)], for a loop that updates a local. *)
Fixpoint for_fold {A S} (l : list A) (body : S -> A -> M S) (acc : S) : M S :=
  match l with
  | [] => ret acc
  | x :: l' => acc' <- body acc x ;; for_fold l' body acc'
  end.

(** [logger.info(msg)]. *)
Definition logger_info (msg : string) : M unit :=
  fun st => (inr tt, mkState (log st ++ [msg])%list (const_file st)).

(** [CHAIN_CONST_FILE.open("w")]: it raises and leaves the file as it
    is, or the file is truncated. *)
Definition open_w (env : Env) : M unit :=
  fun st =>
    match open_error env with
    | Some ex => (inl ex, st)
    | None => (inr tt, mkState (log st) (Some EmptyString))
    end.

(** What the file holds, as a text. *)
Definition content (st : State) : string :=
  match const_file st with
  | Some t => t
  | None => EmptyString
  end.

(** [const_file.write(s)]: it raises and the file keeps what was written
    before, or [s] goes after what the file holds.  (A call writes all of
    its text or none; buffering is not modelled.) *)
Definition file_write (env : Env) (s : string) : M unit :=
  fun st =>
    match write_error env (content st) s with
    | Some ex => (inl ex, st)
    | None => (inr tt, mkState (log st) (Some (content st ++ s)))
    end.

(** [d[k]] as an expression: [KeyError] on an absent key. *)
Definition getitem {V} (d : dict V) (k : string) : M V :=
  match dict_get d k with
  | Some v => ret v
  | None => raise (KeyError k)
  end.

(* ================================================================== *)
(** ** The functions of the script *)

(** [stamp()]: the text of the UTC clock. *)
Definition stamp (env : Env) : string := utcnow env.

(** The values a [dict[str, Any]] can hold, as far as [ensure_dict]
    looks at them: [isinstance(v, dict)] and the value [dict()]. *)
Class PyValue (V : Type) : Type := {
  isinstance_dict : V -> bool;
  new_dict : V;
  new_dict_is_dict : isinstance_dict new_dict = true
}.

(** A mapping is a dict, whatever it holds; the empty one is [dict()]. *)
#[global] Instance PyValue_dict (W : Type) : PyValue (dict W) := {|
  isinstance_dict := fun _ => true;
  new_dict := [];
  new_dict_is_dict := eq_refl
|}.

(** Among the values of JSON, the objects are the dicts. *)
#[global] Instance PyValue_json : PyValue json := {|
  isinstance_dict := fun v => match v with JDict _ => true | _ => false end;
  new_dict := JDict [];
  new_dict_is_dict := eq_refl
|}.

(** [ensure_dict(d, key)]: nothing happens when [key] is present with a
    dict; otherwise [d[key] = dict()], which replaces in place a value
    that is not a dict and appends an absent key. *)
Definition ensure_dict {V} `{PyValue V} (d : dict V) (key : string) : dict V :=
  if dict_has d key
     && match dict_get d key with
        | Some v => isinstance_dict v
        | None => false
        end
  then d
  else dict_set d key new_dict.

(** The test of the [filter] in [fetch_chain]:
    [rpc.split(":")[0] in INCLUDE_PROTOCOLS]. *)
Definition keep_rpc (r : string) : bool :=
  str_in_list (hd EmptyString (str_split ":"%char r)) INCLUDE_PROTOCOLS.

(** The URL [fetch_chain] asks for. *)
Definition chain_url (chain_id : Z) : string :=
  urljoin SOURCE_URL ("eip155-" ++ str_of_int chain_id ++ ".json").

Definition fetch_chain (env : Env) (chain_id : Z) : M Chain :=
  let url := chain_url chain_id in
  logger_info ("GET " ++ url) ;;
  r <- (match requests_get env url with
        | Some r => ret r
        | None => raise ConnectionError
        end) ;;
  if negb (status_code r =? 200)%Z then
    raise (Exception ("Failed to fetch " ++ url))
  else
    c <- (match model_validate_json env (text r) with
          | Some c => ret c
          | None => raise ValidationError
          end) ;;
    ret (set_rpc c (filter keep_rpc (rpc c))).

(** The body of the inner loop of [fetch_chains]: one network of
    [ecosystem], with the function bound to the name [fetch_chain] as an
    argument (a test can rebind it).  The right-hand side of the
    assignment is evaluated before the subscript [chains[ecosystem]] of
    its target. *)
Definition network_step_with (fetch : Z -> M Chain) (ecosystem : string)
  (chains : dict (dict Chain)) (item : string * Z) : M (dict (dict Chain)) :=
  let network := fst item in
  let chain_id := snd item in
  logger_info ("Fetching chain " ++ ecosystem ++ ":" ++ network
               ++ " (" ++ str_of_int chain_id ++ ")") ;;
  let chains := ensure_dict chains ecosystem in
  c <- fetch chain_id ;;
  sub <- getitem chains ecosystem ;;
  ret (dict_set chains ecosystem (dict_set sub network c)).

(** The body of the outer loop: every network of one ecosystem. *)
Definition ecosystem_step_with (fetch : Z -> M Chain) (registry : dict (dict Z))
  (chains : dict (dict Chain)) (ecosystem : string) : M (dict (dict Chain)) :=
  networks <- getitem registry ecosystem ;;
  for_fold (dict_items networks) (network_step_with fetch ecosystem) chains.

(** [fetch_chains()] over a registry, with [fetch_chain] rebound. *)
Definition fetch_chains_with (fetch : Z -> M Chain) (registry : dict (dict Z))
  : M (dict (dict Chain)) :=
  for_fold (dict_keys registry) (ecosystem_step_with fetch registry) [].

(** The loop bodies as the script runs them, with its own [fetch_chain]. *)
Definition network_step (env : Env) (ecosystem : string)
  (chains : dict (dict Chain)) (item : string * Z) : M (dict (dict Chain)) :=
  network_step_with (fetch_chain env) ecosystem chains item.

(** The body of the outer loop: every network of one ecosystem. *)
Definition ecosystem_step (env : Env) (registry : dict (dict Z))
  (chains : dict (dict Chain)) (ecosystem : string) : M (dict (dict Chain)) :=
  networks <- getitem registry ecosystem ;;
  for_fold (dict_items networks) (network_step env ecosystem) chains.

(** [fetch_chains()], with the registry it walks as an argument; the
    script's own is [fetch_chains] below, at [CHAIN_IDS]. *)
Definition fetch_chains_over (env : Env) (registry : dict (dict Z))
  : M (dict (dict Chain)) :=
  for_fold (dict_keys registry) (ecosystem_step env registry) [].

Definition fetch_chains (env : Env) : M (dict (dict Chain)) :=
  fetch_chains_over env CHAIN_IDS.

(** The three comment lines and the opening of the constant. *)
Definition banner_line : string :=
  "# This file is auto-generated by scripts/update_rpc.py" ++ nl.
Definition stamp_line (env : Env) : string := "# " ++ stamp env ++ nl.
Definition notice_line : string := "# Do not edit this file directly." ++ nl.
Definition const_open_line : string :=
  "PUBLIC_CHAIN_RPCS: dict[str, dict[str, list[str]]] = {" ++ nl.

Definition ecosystem_open (ecosystem : string) : string :=
  "    " ++ dq ++ ecosystem ++ dq ++ ": {" ++ nl.
Definition network_open (network : string) : string :=
  "        " ++ dq ++ network ++ dq ++ ": [" ++ nl.
Definition rpc_line (r : string) : string :=
  "            " ++ dq ++ r ++ dq ++ "," ++ nl.
Definition network_close : string := "        ]," ++ nl.
Definition ecosystem_close : string := "    }," ++ nl.
Definition const_close : string := "}" ++ nl.

Definition write_chain_const (env : Env) (chains : dict (dict Chain)) : M unit :=
  open_w env ;;
  file_write env banner_line ;;
  file_write env (stamp_line env) ;;
  file_write env notice_line ;;
  file_write env const_open_line ;;
  for_each (dict_keys chains)
    (fun ecosystem =>
       file_write env (ecosystem_open ecosystem) ;;
       networks <- getitem chains ecosystem ;;
       for_each (dict_items networks)
         (fun item =>
            let network := fst item in
            let c := snd item in
            file_write env (network_open network) ;;
            for_each (rpc c)
              (fun r =>
                 if str_contains "${" r then ret tt
                 else file_write env (rpc_line r)) ;;
            file_write env network_close) ;;
       file_write env ecosystem_close) ;;
  file_write env const_close.

(** [main()], over a registry; the script's own is [main]. *)
Definition main_over (env : Env) (registry : dict (dict Z)) : M unit :=
  logger_info "Fetching chain data..." ;;
  logger_info ("    Source: " ++ SOURCE_URL) ;;
  logger_info ("    Dest: " ++ CHAIN_CONST_FILE env) ;;
  chains <- fetch_chains_over env registry ;;
  write_chain_const env chains.

(** [main()] with the name [fetch_chain] rebound to [fetch]. *)
Definition main_with (fetch : Z -> M Chain) (env : Env)
  (registry : dict (dict Z)) : M unit :=
  logger_info "Fetching chain data..." ;;
  logger_info ("    Source: " ++ SOURCE_URL) ;;
  logger_info ("    Dest: " ++ CHAIN_CONST_FILE env) ;;
  chains <- fetch_chains_with fetch registry ;;
  write_chain_const env chains.

Definition main (env : Env) : M unit := main_over env CHAIN_IDS.

(* ================================================================== *)
(** ** Closed forms and specification-side notions *)

(** The outcome of [fetch_chain] as a function of the outside world. *)
Definition fetch_result (env : Env) (chain_id : Z) : exn + Chain :=
  match requests_get env (chain_url chain_id) with
  | None => inl ConnectionError
  | Some r =>
      if negb (status_code r =? 200)%Z then
        inl (Exception ("Failed to fetch " ++ chain_url chain_id))
      else
        match model_validate_json env (text r) with
        | None => inl ValidationError
        | Some c => inr (set_rpc c (filter keep_rpc (rpc c)))
        end
  end.

(** [p] is the text of [s] before its first colon (all of [s] when it has
    none): the scheme of an endpoint as the spec speaks of it. *)
Definition scheme_of (s p : string) : Prop :=
  ~ In ":"%char (list_ascii_of_string p) /\
  (s = p \/ exists rest, s = p ++ String ":"%char rest).

(** [pat] occurs in [s]. *)
Definition is_substring (pat s : string) : Prop :=
  exists a b, s = a ++ pat ++ b.

(** The endpoints of a list that the Writer emits. *)
Definition literal_rpcs (l : list string) : list string :=
  filter (fun r => negb (str_contains "${" r)) l.

(** The value the generated constant denotes: ecosystem -> network ->
    emitted endpoints. *)
Definition emitted (chains : dict (dict Chain)) : dict (dict (list string)) :=
  map (fun kv =>
         (fst kv, map (fun nc => (fst nc, literal_rpcs (rpc (snd nc)))) (snd kv)))
      chains.

Definition str_concat (l : list string) : string :=
  fold_right String.append EmptyString l.

(** The text of a nested constant: the layout of the generated file. *)
Definition render_network (item : string * list string) : string :=
  network_open (fst item) ++ str_concat (map rpc_line (snd item)) ++ network_close.

Definition render_ecosystem (kv : string * dict (list string)) : string :=
  ecosystem_open (fst kv) ++ str_concat (map render_network (snd kv))
    ++ ecosystem_close.

Definition render_body (v : dict (dict (list string))) : string :=
  notice_line ++ const_open_line ++ str_concat (map render_ecosystem v)
    ++ const_close.

Definition render_file (env : Env) (v : dict (dict (list string))) : string :=
  banner_line ++ stamp_line env ++ render_body v.

(** The ecosystem block the Writer emits for a key, through the subscript
    [chains[ecosystem]] as the source writes it. *)
Definition ecosystem_block (chains : dict (dict Chain)) (ecosystem : string) : string :=
  render_ecosystem
    (ecosystem,
     match dict_get (emitted chains) ecosystem with
     | Some nets => nets
     | None => []
     end).

(** Ecosystems of a registry that have at least one network. *)
Definition inhabited {V} (registry : dict (dict V)) : dict (dict V) :=
  filter (fun kv => match snd kv with [] => false | _ => true end) registry.

(** [sub] holds, key for key and in order, the chains fetched for [nets]. *)
Definition nets_fetched (env : Env) (nets : dict Z) (sub : dict Chain) : Prop :=
  Forall2 (fun nid nc => fst nid = fst nc /\ fetch_result env (snd nid) = inr (snd nc))
          nets sub.

Definition registry_fetched (env : Env) (registry : dict (dict Z))
  (chains : dict (dict Chain)) : Prop :=
  Forall2 (fun kv kc => fst kv = fst kc /\ nets_fetched env (snd kv) (snd kc))
          registry chains.

(** [attach acc e sub]: [acc] with the sub-mapping of [e] last, once it
    has an entry. *)
Definition attach {V} (acc : dict (dict V)) (e : string) (sub : dict V)
  : dict (dict V) :=
  match sub with
  | [] => acc
  | _ => (acc ++ [(e, sub)])%list
  end.

(** The state [main] reaches the Aggregator with. *)
Definition logged_start (env : Env) (st : State) : State :=
  mkState (log st ++ ["Fetching chain data...";
                      ("    Source: " ++ SOURCE_URL)%string;
                      ("    Dest: " ++ CHAIN_CONST_FILE env)%string])%list
          (const_file st).

(** A computation that leaves the generated file alone. *)
Definition keeps_file {A} (m : M A) : Prop :=
  forall st, const_file (snd (m st)) = const_file st.

(** A computation whose outcome does not depend on the state it starts in. *)
Definition state_blind {A} (m : M A) : Prop :=
  forall s1 s2, fst (m s1) = fst (m s2).

(** The file system takes every write; opening is a separate matter. *)
Definition writes_accepted (env : Env) : Prop :=
  forall t s, write_error env t s = None.

(** The destination can be opened and takes every write. *)
Definition accepting (env : Env) : Prop :=
  open_error env = None /\ writes_accepted env.

(** [p] is the beginning of [s]. *)
Definition is_prefix (p s : string) : Prop := exists q, s = p ++ q.

(** A computation on the open file that is to append [s]: whatever the
    file holds, it appends a beginning of [s] and touches nothing else;
    it has appended all of [s] if it returns, and it does return when the
    file system takes every write. *)
Definition appends (env : Env) (m : M unit) (s : string) : Prop :=
  forall t, exists r p,
    (forall lg, m (mkState lg (Some t)) = (r, mkState lg (Some (t ++ p))))
    /\ is_prefix p s
    /\ (r = inr tt -> p = s)
    /\ (writes_accepted env -> r = inr tt).

(** The text the Writer is to write for an aggregated result, block by
    block as it subscripts the mapping. *)
Definition written_text (env : Env) (chains : dict (dict Chain)) : string :=
  banner_line ++ stamp_line env ++ notice_line ++ const_open_line
    ++ str_concat (map (ecosystem_block chains) (dict_keys chains))
    ++ const_close.

(* ================================================================== *)
(** ** The text of the generated file, character for character *)

(** A line: its text and a line feed. *)
Definition text_line (s : string) : string :=
  s ++ String "010"%char EmptyString.

(** A text between double quotes, nothing escaped. *)
Definition in_quotes (s : string) : string :=
  String "034"%char (s ++ String "034"%char EmptyString).

(** The line of one endpoint: twelve spaces, the endpoint in quotes, a
    comma. *)
Definition endpoint_text (r : string) : string :=
  text_line ("            " ++ in_quotes r ++ ",").

(** The block of one network: eight spaces, its key in quotes and an
    opening bracket; its endpoints; the closing bracket. *)
Definition network_text (item : string * list string) : string :=
  text_line ("        " ++ in_quotes (fst item) ++ ": [")
    ++ str_concat (map endpoint_text (snd item))
    ++ text_line "        ],".

(** The block of one ecosystem. *)
Definition ecosystem_text (kv : string * dict (list string)) : string :=
  text_line ("    " ++ in_quotes (fst kv) ++ ": {")
    ++ str_concat (map network_text (snd kv))
    ++ text_line "    },".

(** The declaration of the constant. *)
Definition constant_text (v : dict (dict (list string))) : string :=
  text_line "PUBLIC_CHAIN_RPCS: dict[str, dict[str, list[str]]] = {"
    ++ str_concat (map ecosystem_text v)
    ++ text_line "}".

(** The generated file for a clock text and a nested constant. *)
Definition file_text (now : string) (v : dict (dict (list string))) : string :=
  text_line "# This file is auto-generated by scripts/update_rpc.py"
    ++ text_line ("# " ++ now)
    ++ text_line "# Do not edit this file directly."
    ++ constant_text v.

(* ================================================================== *)
(** ** Mock worlds used to exercise the statements *)

Definition mock_chain (id : Z) (l : list string) : Chain :=
  mkChain "Mock" "MOCK" None l None [] [] "https://info" "mock" id id None None [].

(** The registry of the two-ecosystem scenario. *)
Definition registry2 : dict (dict Z) :=
  [("ecosystem1", [("net", 1%Z)]); ("ecosystem2", [("net", 2%Z)])].

(** A registry source that serves chains 1 and 2 and nothing else. *)
Definition env2 : Env :=
  mkEnv
    (fun url =>
       if String.eqb url (chain_url 1) then Some (mkResponse 200 "one")
       else if String.eqb url (chain_url 2) then Some (mkResponse 200 "two")
       else Some (mkResponse 404 "Not Found"))
    (fun body =>
       if String.eqb body "one" then
         Some (mock_chain 1 ["https://a"; "wss://b"; "http://c"])
       else if String.eqb body "two" then
         Some (mock_chain 2 ["https://d"; "${X}/e"])
       else None)
    "2024-01-01 00:00:00.000001"
    "/repo/src/ape_geth/chains.py"
    None
    (fun _ _ => None).

(** A registry source that answers every request with one status. *)
Definition env_status (status : Z) : Env :=
  mkEnv (fun _ => Some (mkResponse status "{}"))
        (fun _ => Some (mock_chain 1 ["https://a"]))
        "2024-01-01 00:00:00"
        "/repo/src/ape_geth/chains.py"
        None
        (fun _ _ => None).

(** A registry source whose bodies all lack a required field. *)
Definition env_invalid : Env :=
  mkEnv (fun _ => Some (mkResponse 200 "{}"))
        (fun _ => None)
        "2024-01-01 00:00:00"
        "/repo/src/ape_geth/chains.py"
        None
        (fun _ _ => None).

Definition st0 : State := mkState [] (Some "previous content").

(** [env2] with a destination that cannot be opened. *)
Definition env2_unwritable : Env :=
  mkEnv (requests_get env2) (model_validate_json env2) (utcnow env2)
        (CHAIN_CONST_FILE env2)
        (Some (OSError "No such file or directory"))
        (fun _ _ => None).


(** A stand-in for [fetch_chain] that hands back, unfiltered, the records
    of the two-ecosystem scenario. *)
Definition mock_fetch_chain (chain_id : Z) : M Chain :=
  if (chain_id =? 1)%Z then
    ret (mock_chain 1 ["https://a"; "wss://b"; "http://c"])
  else if (chain_id =? 2)%Z then
    ret (mock_chain 2 ["https://d"; "${X}/e"])
  else raise (Exception "unexpected chain id").

(** A [dict[str, Any]] that holds a dict, a number and a text. *)
Definition any_demo : dict json :=
  [("base", JDict [("mainnet", JInt 8453)]); ("count", JInt 3);
   ("label", JStr "x")].

(** A registry whose keys are not in alphabetical order, with an
    ecosystem that has no network. *)
Definition registry_unsorted : dict (dict Z) :=
  [("zeta", [("net", 2%Z)]); ("void", []); ("alpha", [("b", 1%Z); ("a", 2%Z)])].

(** An aggregated result with an empty and an all-template network. *)
Definition chains_demo : dict (dict Chain) :=
  [("ecosystem1",
    [("net", mock_chain 1 ["https://a"; "${KEY}/b"; "http://c"]);
     ("empty", mock_chain 3 []);
     ("templated", mock_chain 4 ["https://x/${API_KEY}"; "${Y}"])])].

(* ================================================================== *)
(** ** Notions for the further properties of the script *)

(** The exception the fetch of a chain id ends with, if it ends with one. *)
Definition fetch_failure (env : Env) (chain_id : Z) : option exn :=
  match fetch_result env chain_id with
  | inl ex => Some ex
  | inr _ => None
  end.

(** The exception of the first element of [l] at which the loop body
    raises, [fail] telling where it does. *)
Fixpoint first_failure {A} (fail : A -> option exn) (l : list A) : option exn :=
  match l with
  | [] => None
  | x :: l' =>
      match fail x with
      | Some ex => Some ex
      | None => first_failure fail l'
      end
  end.

(** The elements of [l] a fail-fast loop reaches: all of them up to and
    including the first at which the body raises. *)
Fixpoint attempted {A} (fail : A -> option exn) (l : list A) : list A :=
  match l with
  | [] => []
  | x :: l' =>
      x :: match fail x with
           | Some _ => []
           | None => attempted fail l'
           end
  end.

(** The two lines logged for one registry entry: the Aggregator's, then
    the Fetcher's. *)
Definition entry_lines (t : string * string * Z) : list string :=
  [ "Fetching chain " ++ fst (fst t) ++ ":" ++ snd (fst t)
      ++ " (" ++ str_of_int (snd t) ++ ")";
    "GET " ++ chain_url (snd t) ].

(** Whether the fetch of the chain id of a registry entry raises. *)
Definition entry_failure (env : Env) (t : string * string * Z) : option exn :=
  fetch_failure env (snd t).

(** The three lines [main] logs before it starts fetching. *)
Definition start_lines (env : Env) : list string :=
  [ "Fetching chain data...";
    "    Source: " ++ SOURCE_URL;
    "    Dest: " ++ CHAIN_CONST_FILE env ].

(** The endpoint list of the validated body behind a chain id (empty
    when there is no validated body). *)
Definition source_rpc (env : Env) (chain_id : Z) : list string :=
  match requests_get env (chain_url chain_id) with
  | Some r =>
      match model_validate_json env (text r) with
      | Some c => rpc c
      | None => []
      end
  | None => []
  end.

(** An endpoint that reaches the generated file: it passes the Fetcher's
    scheme filter and the Writer's placeholder test. *)
Definition published (r : string) : bool :=
  keep_rpc r && negb (str_contains "${" r).

(** A registry in which the second of three networks cannot be fetched
    from [env2]. *)
Definition registry_broken : dict (dict Z) :=
  [("ecosystem1", [("first", 1%Z); ("missing", 7%Z); ("last", 2%Z)]);
   ("ecosystem2", [("net", 2%Z)])].

(* ================================================================== *)
(** ** Strings *)

Lemma append_nil_r (s : string) : s ++ "" = s.
Proof. induction s as [|c s IH]; simpl; [reflexivity | now rewrite IH]. Qed.

Lemma append_assoc (a b c : string) : (a ++ b) ++ c = a ++ (b ++ c).
Proof. induction a as [|x a IH]; simpl; [reflexivity | now rewrite IH]. Qed.

Lemma str_concat_app (l1 l2 : list string) :
  str_concat (l1 ++ l2)%list = str_concat l1 ++ str_concat l2.
Proof.
  induction l1 as [|x l1 IH]; simpl; [reflexivity|].
  now rewrite IH, append_assoc.
Qed.

Lemma str_split_nonempty (sep : ascii) (s : string) : str_split sep s <> [].
Proof.
  destruct s as [|c s]; simpl; [discriminate|].
  destruct (Ascii.eqb c sep); [discriminate|].
  destruct (str_split sep s); discriminate.
Qed.

(** The head of a split, one character at a time. *)
Lemma hd_split_cons (sep c : ascii) (s : string) :
  hd EmptyString (str_split sep (String c s)) =
  if Ascii.eqb c sep then EmptyString
  else String c (hd EmptyString (str_split sep s)).
Proof.
  simpl. destruct (Ascii.eqb c sep); [reflexivity|].
  destruct (str_split sep s) eqn:E; [|reflexivity].
  now apply str_split_nonempty in E.
Qed.

Lemma hd_split_is_scheme (s : string) :
  scheme_of s (hd EmptyString (str_split ":"%char s)).
Proof.
  induction s as [|c s [Hno Hs]].
  - split; [intros []|now left].
  - rewrite hd_split_cons. destruct (Ascii.eqb_spec c ":"%char) as [->|Hc].
    + split; [intros []|]. right. now exists s.
    + split.
      * simpl. intros [E|E]; [now apply Hc|now apply Hno].
      * destruct Hs as [E|[rest E]].
        -- left. simpl. now rewrite <- E.
        -- right. exists rest. simpl. now rewrite <- E.
Qed.

Lemma scheme_is_hd_split (p s : string) :
  scheme_of s p -> hd EmptyString (str_split ":"%char s) = p.
Proof.
  revert s; induction p as [|a p IH]; intros s [Hno Hs].
  - destruct Hs as [->|[rest ->]]; reflexivity.
  - assert (Ha : a <> ":"%char) by (intros ->; apply Hno; simpl; now left).
    assert (Hp : ~ In ":"%char (list_ascii_of_string p))
      by (intros H; apply Hno; simpl; now right).
    destruct Hs as [->|[rest ->]].
    + rewrite hd_split_cons. destruct (Ascii.eqb_spec a ":"%char); [contradiction|].
      f_equal. apply IH. split; [assumption|now left].
    + change (String a p ++ String ":"%char rest)
        with (String a (p ++ String ":"%char rest)).
      rewrite hd_split_cons. destruct (Ascii.eqb_spec a ":"%char); [contradiction|].
      f_equal. apply IH. split; [assumption|]. right. now exists rest.
Qed.

(** The head of the split is the text before the first separator. *)
Lemma hd_split_scheme (s p : string) :
  hd EmptyString (str_split ":"%char s) = p <-> scheme_of s p.
Proof.
  split; [intros <-; apply hd_split_is_scheme | apply scheme_is_hd_split].
Qed.

Lemma prefix_app (p s : string) :
  String.prefix p s = true <-> exists b, s = p ++ b.
Proof.
  revert s; induction p as [|a p IH]; intros s; simpl.
  - destruct s; split; eauto.
  - destruct s as [|c s].
    + split; [discriminate|]. intros [b E]. discriminate.
    + simpl. destruct (ascii_dec a c) as [->|Hac].
      * split.
        -- intros H. apply IH in H as [b ->]. now exists b.
        -- intros [b E]. injection E as E. apply IH. now exists b.
      * split; [discriminate|]. intros [b E]. injection E as E _.
        now symmetry in E.
Qed.

Lemma str_contains_eq (pat s : string) :
  str_contains pat s =
  if String.prefix pat s then true
  else match s with
       | EmptyString => false
       | String _ s' => str_contains pat s'
       end.
Proof. destruct s; reflexivity. Qed.

(** [str_contains] decides occurrence. *)
Lemma str_contains_spec (pat s : string) :
  str_contains pat s = true <-> is_substring pat s.
Proof.
  split.
  - induction s as [|c s IH]; rewrite str_contains_eq;
      destruct (String.prefix pat _) eqn:E;
      try (intros _; apply prefix_app in E as [b E]; now exists "", b).
    + discriminate.
    + intros H. destruct (IH H) as (a & b & ->). now exists (String c a), b.
  - intros (a & b & ->). induction a as [|c a IH]; rewrite str_contains_eq.
    + assert (E : String.prefix pat ("" ++ pat ++ b) = true)
        by (apply prefix_app; now exists b).
      now rewrite E.
    + destruct (String.prefix pat _); [reflexivity|exact IH].
Qed.

Lemma str_contains_false (pat s : string) :
  str_contains pat s = false <-> ~ is_substring pat s.
Proof.
  rewrite <- str_contains_spec. now destruct (str_contains pat s).
Qed.

(** The filter of [fetch_chain] keeps the endpoints of scheme http, https. *)
Lemma keep_rpc_spec (r : string) :
  keep_rpc r = true <-> scheme_of r "http" \/ scheme_of r "https".
Proof.
  unfold keep_rpc, str_in_list, INCLUDE_PROTOCOLS. simpl.
  rewrite orb_false_r, orb_true_iff, !String.eqb_eq, !hd_split_scheme.
  reflexivity.
Qed.

Lemma literal_rpcs_spec (l : list string) (r : string) :
  In r (literal_rpcs l) <-> In r l /\ ~ is_substring "${" r.
Proof.
  unfold literal_rpcs. rewrite filter_In, negb_true_iff, str_contains_false.
  reflexivity.
Qed.

(* ================================================================== *)
(** ** Dictionaries *)

Section DictFacts.
Context {V : Type}.
Implicit Types (d : dict V) (k : string) (v : V).

Lemma dict_get_absent d k : ~ In k (dict_keys d) -> dict_get d k = None.
Proof.
  induction d as [|[k' v'] d IH]; simpl; intros H; [reflexivity|].
  destruct (String.eqb_spec k' k) as [->|Hk]; [exfalso; auto|]. auto.
Qed.

Lemma dict_get_present d k :
  In k (dict_keys d) -> exists v, dict_get d k = Some v.
Proof.
  induction d as [|[k' v'] d IH]; simpl; intros H; [contradiction|].
  destruct (String.eqb_spec k' k) as [->|Hk]; [eauto|].
  destruct H as [H|H]; [contradiction|auto].
Qed.

Lemma dict_get_in d k v : dict_get d k = Some v -> In (k, v) d.
Proof.
  induction d as [|[k' v'] d IH]; simpl; [discriminate|].
  destruct (String.eqb_spec k' k) as [->|Hk].
  - intros [= ->]. now left.
  - intros H. right. auto.
Qed.

Lemma dict_get_key d k v : dict_get d k = Some v -> In k (dict_keys d).
Proof.
  intros H. apply dict_get_in in H. now apply (in_map fst) in H.
Qed.

Lemma dict_wf_get d k v : dict_wf d -> In (k, v) d -> dict_get d k = Some v.
Proof.
  unfold dict_wf. induction d as [|[k' v'] d IH]; simpl; intros Hwf H.
  - contradiction.
  - inversion Hwf as [|? ? Hnot Hwf']; subst.
    destruct H as [[= -> ->]|H].
    + now rewrite String.eqb_refl.
    + destruct (String.eqb_spec k' k) as [->|Hk]; [|auto].
      exfalso. apply Hnot. now apply (in_map fst) in H.
Qed.

Lemma dict_set_absent d k v :
  ~ In k (dict_keys d) -> dict_set d k v = (d ++ [(k, v)])%list.
Proof.
  induction d as [|[k' v'] d IH]; simpl; intros H; [reflexivity|].
  destruct (String.eqb_spec k' k) as [->|Hk]; [exfalso; auto|].
  rewrite IH; auto.
Qed.

Lemma dict_set_last d k v v' :
  ~ In k (dict_keys d) ->
  dict_set (d ++ [(k, v)])%list k v' = (d ++ [(k, v')])%list.
Proof.
  induction d as [|[k0 v0] d IH]; simpl; intros H.
  - now rewrite String.eqb_refl.
  - destruct (String.eqb_spec k0 k) as [->|Hk]; [exfalso; auto|].
    rewrite IH; auto.
Qed.

Lemma dict_get_last d k v :
  ~ In k (dict_keys d) -> dict_get (d ++ [(k, v)])%list k = Some v.
Proof.
  induction d as [|[k0 v0] d IH]; simpl; intros H.
  - now rewrite String.eqb_refl.
  - destruct (String.eqb_spec k0 k) as [->|Hk]; [exfalso; auto|]. auto.
Qed.

Lemma dict_keys_app d1 d2 :
  dict_keys (d1 ++ d2)%list = (dict_keys d1 ++ dict_keys d2)%list.
Proof. apply map_app. Qed.
End DictFacts.

(* ================================================================== *)
(** ** The monad *)

Lemma bind_inr {A B} (m : M A) (k : A -> M B) st a st' :
  m st = (inr a, st') -> bind m k st = k a st'.
Proof. unfold bind. now intros ->. Qed.

Lemma bind_inl {A B} (m : M A) (k : A -> M B) st e st' :
  m st = (inl e, st') -> bind m k st = (inl e, st').
Proof. unfold bind. now intros ->. Qed.

Lemma keeps_file_ret {A} (a : A) : keeps_file (ret a).
Proof. now intros st. Qed.

Lemma keeps_file_raise {A} (e : exn) : keeps_file (@raise A e).
Proof. now intros st. Qed.

Lemma keeps_file_log msg : keeps_file (logger_info msg).
Proof. now intros st. Qed.

Lemma keeps_file_bind {A B} (m : M A) (k : A -> M B) :
  keeps_file m -> (forall a, keeps_file (k a)) -> keeps_file (bind m k).
Proof.
  intros Hm Hk st. unfold bind. specialize (Hm st).
  destruct (m st) as [[e|a] st']; simpl in *; [assumption|].
  now rewrite Hk.
Qed.

Lemma keeps_file_getitem {V} (d : dict V) k : keeps_file (getitem d k).
Proof.
  unfold getitem. destruct (dict_get d k);
    [apply keeps_file_ret | apply keeps_file_raise].
Qed.

Lemma keeps_file_for_fold {A S} (l : list A) (body : S -> A -> M S) :
  (forall acc x, keeps_file (body acc x)) ->
  forall acc, keeps_file (for_fold l body acc).
Proof.
  intros Hb. induction l as [|x l IH]; intros acc; simpl.
  - apply keeps_file_ret.
  - apply keeps_file_bind; auto.
Qed.

(** A loop aborts when the body aborts at one of its elements, whatever
    the accumulator and the state it is reached with. *)
Lemma for_fold_aborts {A S} (l : list A) (body : S -> A -> M S) (x : A) :
  In x l ->
  (forall acc st, exists e st', body acc x st = (inl e, st')) ->
  forall acc st, exists e st', for_fold l body acc st = (inl e, st').
Proof.
  intros Hin Hx. induction l as [|y l IH]; [contradiction|].
  intros acc st. simpl. destruct Hin as [->|Hin].
  - destruct (Hx acc st) as (e & st' & E).
    exists e, st'. now apply bind_inl.
  - destruct (body acc y st) as [[e|acc'] st'] eqn:E.
    + exists e, st'. now apply bind_inl.
    + rewrite (bind_inr _ _ _ _ _ E). now apply IH.
Qed.

Lemma is_prefix_nil (s : string) : is_prefix "" s.
Proof. now exists s. Qed.

Lemma is_prefix_refl (s : string) : is_prefix s s.
Proof. exists "". now rewrite append_nil_r. Qed.

Lemma is_prefix_app_l (p s s2 : string) : is_prefix p s -> is_prefix p (s ++ s2).
Proof. intros [q ->]. exists (q ++ s2). now rewrite append_assoc. Qed.

Lemma is_prefix_app_r (s p s2 : string) :
  is_prefix p s2 -> is_prefix (s ++ p) (s ++ s2).
Proof. intros [q ->]. exists q. now rewrite append_assoc. Qed.

Lemma appends_ret env : appends env (ret tt) "".
Proof.
  intros t. exists (inr tt), "". repeat split.
  - intros lg. unfold ret. now rewrite append_nil_r.
  - apply is_prefix_nil.
Qed.

(** One write: all of the text, or the exception and nothing. *)
Lemma appends_file_write env s : appends env (file_write env s) s.
Proof.
  intros t. destruct (write_error env t s) as [ex|] eqn:E.
  - exists (inl ex), "". repeat split.
    + intros lg. unfold file_write, content. simpl. rewrite E.
      now rewrite append_nil_r.
    + apply is_prefix_nil.
    + discriminate.
    + intros H. rewrite H in E. discriminate.
  - exists (inr tt), s. repeat split.
    + intros lg. unfold file_write, content. simpl. now rewrite E.
    + apply is_prefix_refl.
Qed.

(** Writes in sequence: the second follows where the first ended, and is
    not reached when the first raised. *)
Lemma appends_seq env (m1 m2 : M unit) s1 s2 :
  appends env m1 s1 -> appends env m2 s2 -> appends env (m1 ;; m2) (s1 ++ s2).
Proof.
  intros H1 H2 t. destruct (H1 t) as (r1 & p1 & E1 & P1 & C1 & A1).
  destruct r1 as [ex|[]].
  - exists (inl ex), p1. repeat split.
    + intros lg. now rewrite (bind_inl _ _ _ _ _ (E1 lg)).
    + now apply is_prefix_app_l.
    + discriminate.
    + intros H. specialize (A1 H). discriminate.
  - specialize (C1 eq_refl). subst p1.
    destruct (H2 (t ++ s1)) as (r2 & p2 & E2 & P2 & C2 & A2).
    exists r2, (s1 ++ p2). repeat split.
    + intros lg. rewrite (bind_inr _ _ _ _ _ (E1 lg)), E2.
      now rewrite append_assoc.
    + now apply is_prefix_app_r.
    + intros H. now rewrite (C2 H).
    + exact A2.
Qed.

Lemma appends_for_each {A} env (l : list A) (body : A -> M unit) (f : A -> string) :
  (forall x, In x l -> appends env (body x) (f x)) ->
  appends env (for_each l body) (str_concat (map f l)).
Proof.
  induction l as [|x l IH]; intros H; simpl.
  - apply appends_ret.
  - apply appends_seq; [apply H; now left|].
    apply IH. intros y Hy. apply H. now right.
Qed.

Lemma bind_ret {A B} (a : A) (k : A -> M B) : bind (ret a) k = k a.
Proof. reflexivity. Qed.

(* ================================================================== *)
(** ** The Fetcher *)

(** One fetch logs its request line and ends as [fetch_result] says. *)
Lemma fetch_chain_run (env : Env) (chain_id : Z) (st : State) :
  fetch_chain env chain_id st =
  (fetch_result env chain_id,
   mkState (log st ++ [("GET " ++ chain_url chain_id)%string])%list
           (const_file st)).
Proof.
  cbv [fetch_chain fetch_result bind logger_info ret raise].
  destruct (requests_get env (chain_url chain_id)) as [r|]; [|reflexivity].
  destruct (negb (status_code r =? 200)%Z); [reflexivity|].
  destruct (model_validate_json env (text r)); reflexivity.
Qed.

Lemma keeps_file_fetch_chain (env : Env) (chain_id : Z) :
  keeps_file (fetch_chain env chain_id).
Proof. intros st. now rewrite fetch_chain_run. Qed.

(** A non-200 answer makes the fetch raise, whatever the answer holds. *)
Lemma fetch_result_bad_status (env : Env) (chain_id : Z) (r : Response) :
  requests_get env (chain_url chain_id) = Some r ->
  status_code r <> 200%Z ->
  fetch_result env chain_id =
  inl (Exception ("Failed to fetch " ++ chain_url chain_id)).
Proof.
  intros Hr Hs. unfold fetch_result. rewrite Hr.
  destruct (Z.eqb_spec (status_code r) 200); [contradiction|reflexivity].
Qed.

Lemma fetch_result_invalid (env : Env) (chain_id : Z) (r : Response) :
  requests_get env (chain_url chain_id) = Some r ->
  status_code r = 200%Z ->
  model_validate_json env (text r) = None ->
  fetch_result env chain_id = inl ValidationError.
Proof.
  intros Hr Hs Hv. unfold fetch_result. now rewrite Hr, Hs, Hv.
Qed.

Lemma fetch_result_ok (env : Env) (chain_id : Z) (r : Response) (c : Chain) :
  requests_get env (chain_url chain_id) = Some r ->
  status_code r = 200%Z ->
  model_validate_json env (text r) = Some c ->
  fetch_result env chain_id = inr (set_rpc c (filter keep_rpc (rpc c))).
Proof.
  intros Hr Hs Hv. unfold fetch_result. now rewrite Hr, Hs, Hv.
Qed.

(* ================================================================== *)
(** ** The Aggregator *)

Lemma keeps_file_network_step env e chains item :
  keeps_file (network_step env e chains item).
Proof.
  unfold network_step, network_step_with.
  apply keeps_file_bind; [apply keeps_file_log|intros _].
  apply keeps_file_bind; [apply keeps_file_fetch_chain|intros c].
  apply keeps_file_bind; [apply keeps_file_getitem|intros sub].
  apply keeps_file_ret.
Qed.

Lemma keeps_file_ecosystem_step env registry chains e :
  keeps_file (ecosystem_step env registry chains e).
Proof.
  unfold ecosystem_step.
  apply keeps_file_bind; [apply keeps_file_getitem|intros nets].
  apply keeps_file_for_fold. intros acc x. apply keeps_file_network_step.
Qed.

(** The Aggregator never touches the generated file. *)
Lemma keeps_file_fetch_chains (env : Env) (registry : dict (dict Z)) :
  keeps_file (fetch_chains_over env registry).
Proof.
  apply keeps_file_for_fold. intros acc x. apply keeps_file_ecosystem_step.
Qed.

(** A failed fetch aborts the step of its network. *)
Lemma network_step_aborts env e chains item ex :
  fetch_result env (snd item) = inl ex ->
  forall st, exists st', network_step env e chains item st = (inl ex, st').
Proof.
  intros Hf st. unfold network_step, network_step_with, bind at 1, logger_info.
  unfold bind at 1. rewrite fetch_chain_run, Hf. eauto.
Qed.

(** A failed fetch anywhere in the registry aborts the Aggregator. *)
Lemma fetch_chains_aborts env registry e nets n chain_id ex :
  dict_get registry e = Some nets ->
  In (n, chain_id) (dict_items nets) ->
  fetch_result env chain_id = inl ex ->
  forall st, exists ex' st', fetch_chains_over env registry st = (inl ex', st').
Proof.
  intros Hget Hin Hf. unfold fetch_chains_over.
  apply for_fold_aborts with (x := e).
  - now apply dict_get_key in Hget.
  - intros acc st. unfold ecosystem_step, getitem. rewrite Hget, bind_ret.
    apply for_fold_aborts with (x := (n, chain_id)); [assumption|].
    intros acc' st'.
    destruct (network_step_aborts env e acc' (n, chain_id) ex Hf st') as [st'' E].
    eauto.
Qed.

Lemma main_over_run env registry st :
  main_over env registry st =
  (chains <- fetch_chains_over env registry ;; write_chain_const env chains)
    (logged_start env st).
Proof.
  unfold main_over, logged_start, bind at 1 2 3, logger_info. simpl log.
  now rewrite <- !app_assoc.
Qed.

(** When the Aggregator aborts, so does the run, and the file stays as it
    was: the Writer is never reached. *)
Lemma main_aborts env registry :
  (forall st, exists ex st', fetch_chains_over env registry st = (inl ex, st')) ->
  forall st, exists ex st',
    main_over env registry st = (inl ex, st') /\ const_file st' = const_file st.
Proof.
  intros H st. rewrite main_over_run.
  destruct (H (logged_start env st)) as (ex & st' & E).
  exists ex, st'. split; [now apply bind_inl|].
  pose proof (keeps_file_fetch_chains env registry (logged_start env st)) as K.
  now rewrite E in K.
Qed.

(** [ensure_dict] on the accumulator of the inner loop: the sub-mapping of
    the ecosystem is there afterwards, created only if it was missing. *)
Lemma ensure_dict_attach (acc : dict (dict Chain)) e sub :
  ~ In e (dict_keys acc) ->
  ensure_dict (attach acc e sub) e = (acc ++ [(e, sub)])%list.
Proof.
  intros He. unfold ensure_dict, dict_has, attach. destruct sub as [|x sub].
  - rewrite (dict_get_absent _ _ He). simpl. now apply dict_set_absent.
  - now rewrite (dict_get_last _ _ _ He).
Qed.

Lemma attach_snoc (acc : dict (dict Chain)) e sub x :
  attach acc e (sub ++ [x])%list = (acc ++ [(e, (sub ++ [x])%list)])%list.
Proof. unfold attach. now destruct sub. Qed.

Lemma network_step_ok env e acc sub item c st :
  ~ In e (dict_keys acc) ->
  ~ In (fst item) (dict_keys sub) ->
  fetch_result env (snd item) = inr c ->
  exists st',
    network_step env e (attach acc e sub) item st
    = (inr (attach acc e (sub ++ [(fst item, c)])%list), st').
Proof.
  intros He Hn Hf. unfold network_step, network_step_with, bind at 1, logger_info.
  unfold bind at 1. rewrite fetch_chain_run, Hf.
  rewrite (ensure_dict_attach _ _ _ He).
  unfold getitem. rewrite (dict_get_last _ _ _ He), bind_ret.
  rewrite (dict_set_last _ _ _ _ He), (dict_set_absent _ _ _ Hn), attach_snoc.
  unfold ret. eauto.
Qed.

(** The inner loop, from any point of its run: the networks still to do
    are appended, in order, to the sub-mapping built so far. *)
Lemma networks_loop_ok env e acc :
  ~ In e (dict_keys acc) ->
  forall rest sub st,
    NoDup (dict_keys sub ++ dict_keys rest)%list ->
    (forall item, In item rest -> exists c, fetch_result env (snd item) = inr c) ->
    exists more st',
      for_fold rest (network_step env e) (attach acc e sub) st
      = (inr (attach acc e (sub ++ more)%list), st')
      /\ nets_fetched env rest more.
Proof.
  intros He. induction rest as [|item rest IH]; intros sub st Hnd Hok.
  - exists [], st. rewrite app_nil_r. split; [reflexivity|constructor].
  - simpl in Hnd. pose proof (NoDup_remove_2 _ _ _ Hnd) as Hn.
    destruct (Hok item (or_introl eq_refl)) as [c Hc].
    destruct (network_step_ok env e acc sub item c st He) as [st1 E1];
      [intros H; apply Hn, in_or_app; now left | assumption |].
    destruct (IH (sub ++ [(fst item, c)])%list st1) as (more & st' & E & F).
    + rewrite dict_keys_app, <- app_assoc. exact Hnd.
    + intros x Hx. apply Hok. now right.
    + exists ((fst item, c) :: more), st'. split.
      * simpl for_fold. rewrite (bind_inr _ _ _ _ _ E1), E, <- app_assoc.
        reflexivity.
      * constructor; [split|]; auto.
Qed.

Lemma ecosystem_step_ok env registry acc e nets st :
  dict_get registry e = Some nets ->
  ~ In e (dict_keys acc) ->
  dict_wf nets ->
  (forall item, In item nets -> exists c, fetch_result env (snd item) = inr c) ->
  exists sub st',
    ecosystem_step env registry acc e st = (inr (attach acc e sub), st')
    /\ nets_fetched env nets sub.
Proof.
  intros Hget He Hwf Hok. unfold ecosystem_step, getitem.
  rewrite Hget, bind_ret.
  exact (networks_loop_ok env e acc He nets [] st Hwf Hok).
Qed.

(** The outer loop, from any point of its run. *)
Lemma ecosystems_loop_ok env registry :
  forall rest acc st,
    (forall kv, In kv rest -> dict_get registry (fst kv) = Some (snd kv)) ->
    NoDup (dict_keys rest) ->
    (forall k, In k (dict_keys acc) -> ~ In k (dict_keys rest)) ->
    Forall (fun kv => dict_wf (snd kv)) rest ->
    (forall kv item, In kv rest -> In item (snd kv) ->
                     exists c, fetch_result env (snd item) = inr c) ->
    exists more st',
      for_fold (dict_keys rest) (ecosystem_step env registry) acc st
      = (inr (acc ++ more)%list, st')
      /\ registry_fetched env (inhabited rest) more.
Proof.
  induction rest as [|[e nets] rest IH]; intros acc st Hget Hnd Hdis Hwf Hok.
  - exists [], st. rewrite app_nil_r. split; [reflexivity|constructor].
  - inversion Hnd as [|? ? He Hnd']; subst.
    inversion Hwf as [|? ? Hwf1 Hwf']; subst. simpl in Hwf1.
    assert (Hacc : ~ In e (dict_keys acc)).
    { intros H. apply (Hdis e H). now left. }
    destruct (ecosystem_step_ok env registry acc e nets st) as (sub & st1 & E1 & F1);
      [exact (Hget (e, nets) (or_introl eq_refl)) | assumption | assumption
      | intros item Hi; exact (Hok (e, nets) item (or_introl eq_refl) Hi) |].
    destruct (IH (attach acc e sub) st1) as (more & st' & E & F).
    + intros kv Hkv. apply Hget. now right.
    + assumption.
    + intros k Hk Hin. unfold attach in Hk. destruct sub.
      * apply (Hdis k Hk). now right.
      * rewrite dict_keys_app in Hk. apply in_app_or in Hk as [Hk|[<-|[]]].
        -- apply (Hdis k Hk). now right.
        -- now apply He.
    + assumption.
    + intros kv item Hkv. apply Hok. now right.
    + simpl for_fold. rewrite (bind_inr _ _ _ _ _ E1), E.
      unfold inhabited. simpl filter. inversion F1 as [|x y l l' Hxy Hl]; subst.
      * exists more, st'. split; [reflexivity|exact F].
      * exists ((e, y :: l') :: more), st'. split.
        -- unfold attach. now rewrite <- app_assoc.
        -- constructor; [split; [reflexivity|assumption]|exact F].
Qed.

(** When every fetch succeeds the Aggregator returns, ecosystem for
    ecosystem and network for network, what the Fetcher gave. *)
Lemma fetch_chains_ok env registry st :
  dict2_wf registry ->
  (forall kv item, In kv registry -> In item (snd kv) ->
                   exists c, fetch_result env (snd item) = inr c) ->
  exists chains st',
    fetch_chains_over env registry st = (inr chains, st')
    /\ registry_fetched env (inhabited registry) chains
    /\ const_file st' = const_file st.
Proof.
  intros [Hwf Hwf2] Hok.
  destruct (ecosystems_loop_ok env registry registry [] st) as (chains & st' & E & F);
    try assumption.
  - intros [k v] Hkv. now apply dict_wf_get.
  - intros k [].
  - exists chains, st'. split; [exact E|split; [exact F|]].
    pose proof (keeps_file_fetch_chains env registry st) as K.
    unfold fetch_chains_over in K. now rewrite E in K.
Qed.

Lemma registry_fetched_keys env registry chains :
  registry_fetched env registry chains ->
  dict_keys chains = dict_keys registry.
Proof.
  induction 1 as [|x y l l' [Hk _] _ IH]; simpl; [reflexivity|].
  now rewrite IH, Hk.
Qed.

Lemma nets_fetched_keys env nets sub :
  nets_fetched env nets sub -> dict_keys sub = dict_keys nets.
Proof.
  induction 1 as [|x y l l' [Hk _] _ IH]; simpl; [reflexivity|].
  now rewrite IH, Hk.
Qed.

(** The (ecosystem, network) pairs of a nested mapping, in order. *)
Lemma registry_fetched_pairs env registry chains :
  registry_fetched env registry chains ->
  map fst (dict2_flat chains) = map fst (dict2_flat registry).
Proof.
  induction 1 as [|x y l l' [Hk Hn] _ IH]; simpl; [reflexivity|].
  unfold dict2_flat in *. simpl. rewrite !map_app, IH. f_equal.
  destruct x as [e nets], y as [e' sub]. simpl in Hk, Hn |- *. subst e'.
  clear -Hn. induction Hn as [|a b m m' [Hab _] _ IHn]; simpl; [reflexivity|].
  now rewrite IHn, Hab.
Qed.

Lemma dict2_flat_inhabited {V} (registry : dict (dict V)) :
  dict2_flat (inhabited registry) = dict2_flat registry.
Proof.
  unfold dict2_flat, inhabited.
  induction registry as [|[e [|x nets]] registry IH]; simpl; [reflexivity|assumption|].
  now rewrite IH.
Qed.

(* ================================================================== *)
(** ** The Writer *)

(** The innermost loop: one line per endpoint without a placeholder. *)
Lemma appends_rpcs env (l : list string) :
  appends env
    (for_each l (fun r => if str_contains "${" r then ret tt
                          else file_write env (rpc_line r)))
    (str_concat (map rpc_line (literal_rpcs l))).
Proof.
  induction l as [|r l IH]; [apply appends_ret|].
  unfold literal_rpcs in *. simpl for_each. simpl filter.
  destruct (str_contains "${" r); simpl negb; cbv iota.
  - exact (appends_seq env _ _ _ _ (appends_ret env) IH).
  - exact (appends_seq env _ _ _ _ (appends_file_write env _) IH).
Qed.

(** One network: its opening line, its endpoints, its closing line. *)
Lemma appends_network env (item : string * Chain) :
  appends env
    (file_write env (network_open (fst item)) ;;
     for_each (rpc (snd item))
       (fun r => if str_contains "${" r then ret tt
                 else file_write env (rpc_line r)) ;;
     file_write env network_close)
    (render_network (fst item, literal_rpcs (rpc (snd item)))).
Proof.
  apply appends_seq; [apply appends_file_write|].
  apply appends_seq; [apply appends_rpcs|apply appends_file_write].
Qed.

Lemma dict_get_emitted (chains : dict (dict Chain)) (e : string) :
  dict_get (emitted chains) e =
  option_map (map (fun nc => (fst nc, literal_rpcs (rpc (snd nc)))))
             (dict_get chains e).
Proof.
  induction chains as [|[k v] chains IH]; simpl; [reflexivity|].
  now destruct (String.eqb k e).
Qed.

(** One ecosystem, through the subscript [chains[ecosystem]], which finds
    a key the loop took from the same mapping. *)
Lemma appends_ecosystem env (chains : dict (dict Chain)) (e : string) :
  In e (dict_keys chains) ->
  appends env
    (file_write env (ecosystem_open e) ;;
     networks <- getitem chains e ;;
     for_each (dict_items networks)
       (fun item =>
          file_write env (network_open (fst item)) ;;
          for_each (rpc (snd item))
            (fun r => if str_contains "${" r then ret tt
                      else file_write env (rpc_line r)) ;;
          file_write env network_close) ;;
     file_write env ecosystem_close)
    (ecosystem_block chains e).
Proof.
  intros He. destruct (dict_get_present _ _ He) as [nets Hget].
  unfold ecosystem_block, render_ecosystem, getitem.
  rewrite dict_get_emitted, Hget, bind_ret. simpl option_map. cbv iota.
  simpl fst. simpl snd.
  apply appends_seq; [apply appends_file_write|].
  apply appends_seq; [|apply appends_file_write].
  rewrite map_map. apply appends_for_each. intros item _. apply appends_network.
Qed.

(** The Writer, whatever the file system does.  When the file cannot be
    opened nothing is touched.  Otherwise the file is replaced, whatever
    it held, by a beginning of the text to write: all of it if the Writer
    returns, which it does when every write is taken.  The log is left
    alone in every case. *)
Lemma write_chain_const_cases (env : Env) (chains : dict (dict Chain)) :
  match open_error env with
  | Some ex => forall st, write_chain_const env chains st = (inl ex, st)
  | None =>
      exists r p,
        (forall st, write_chain_const env chains st
                    = (r, mkState (log st) (Some p)))
        /\ is_prefix p (written_text env chains)
        /\ (r = inr tt -> p = written_text env chains)
        /\ (writes_accepted env -> r = inr tt)
  end.
Proof.
  unfold write_chain_const. destruct (open_error env) as [ex|] eqn:Eo.
  - intros st. unfold bind at 1, open_w. now rewrite Eo.
  - match goal with
    | |- context [bind (open_w env) (fun _ => ?m)] =>
        assert (W : appends env m (written_text env chains))
    end.
    { unfold written_text.
      repeat (apply appends_seq; [apply appends_file_write|]).
      apply appends_seq; [|apply appends_file_write].
      apply appends_for_each. intros e He. now apply appends_ecosystem. }
    destruct (W "") as (r & p & E & P & C & A).
    exists r, p. split; [|auto]. intros st.
    unfold bind at 1, open_w. rewrite Eo. exact (E (log st)).
Qed.

(** On a destination that can be opened and written, the Writer returns
    and the file holds the whole text. *)
Lemma write_chain_const_run (env : Env) (chains : dict (dict Chain)) (st : State) :
  accepting env ->
  write_chain_const env chains st =
  (inr tt, mkState (log st) (Some (written_text env chains))).
Proof.
  intros [Ho Hw]. pose proof (write_chain_const_cases env chains) as H.
  rewrite Ho in H. destruct H as (r & p & E & _ & C & A).
  specialize (A Hw). subst r. now rewrite E, (C eq_refl).
Qed.

(** Whatever the file system does, a Writer that returns has written the
    whole text. *)
Lemma write_chain_const_returned (env : Env) (chains : dict (dict Chain)) (st : State) :
  fst (write_chain_const env chains st) = inr tt ->
  write_chain_const env chains st =
  (inr tt, mkState (log st) (Some (written_text env chains))).
Proof.
  pose proof (write_chain_const_cases env chains) as H.
  destruct (open_error env) as [ex|].
  - rewrite H. discriminate.
  - destruct H as (r & p & E & _ & C & _). rewrite E. simpl.
    intros ->. now rewrite (C eq_refl).
Qed.

(** On a Python dict the subscript finds the value iterated with the key. *)
Lemma ecosystem_blocks_wf (chains : dict (dict Chain)) :
  dict_wf chains ->
  map (ecosystem_block chains) (dict_keys chains)
  = map render_ecosystem (emitted chains).
Proof.
  intros Hwf.
  assert (G : forall rest,
             (forall kv, In kv rest -> dict_get chains (fst kv) = Some (snd kv)) ->
             map (ecosystem_block chains) (dict_keys rest)
             = map render_ecosystem (emitted rest)).
  { induction rest as [|[e nets] rest IH]; intros H; [reflexivity|].
    simpl. f_equal.
    - pose proof (H (e, nets) (or_introl eq_refl)) as Hget. simpl in Hget.
      unfold ecosystem_block. now rewrite dict_get_emitted, Hget.
    - apply IH. intros kv Hkv. apply H. now right. }
  apply G. intros [k v] Hkv. now apply dict_wf_get.
Qed.

(** The f-strings of the Writer give, character for character, the lines
    of the file as spelled out in [file_text]. *)
Lemma rpc_line_text (r : string) : rpc_line r = endpoint_text r.
Proof.
  unfold rpc_line, endpoint_text, text_line, in_quotes, dq, nl. simpl.
  now rewrite !append_assoc.
Qed.

Lemma network_open_text (n : string) :
  network_open n = text_line ("        " ++ in_quotes n ++ ": [").
Proof.
  unfold network_open, text_line, in_quotes, dq, nl. simpl.
  now rewrite !append_assoc.
Qed.

Lemma ecosystem_open_text (e : string) :
  ecosystem_open e = text_line ("    " ++ in_quotes e ++ ": {").
Proof.
  unfold ecosystem_open, text_line, in_quotes, dq, nl. simpl.
  now rewrite !append_assoc.
Qed.

Lemma render_network_text (item : string * list string) :
  render_network item = network_text item.
Proof.
  unfold render_network, network_text.
  rewrite network_open_text, (map_ext _ _ rpc_line_text). reflexivity.
Qed.

Lemma render_ecosystem_text (kv : string * dict (list string)) :
  render_ecosystem kv = ecosystem_text kv.
Proof.
  unfold render_ecosystem, ecosystem_text.
  rewrite ecosystem_open_text, (map_ext _ _ render_network_text). reflexivity.
Qed.

Lemma render_file_text (env : Env) (v : dict (dict (list string))) :
  render_file env v = file_text (utcnow env) v.
Proof.
  unfold render_file, file_text, render_body, constant_text.
  change banner_line
    with (text_line "# This file is auto-generated by scripts/update_rpc.py").
  change (stamp_line env) with (text_line ("# " ++ utcnow env)).
  change notice_line with (text_line "# Do not edit this file directly.").
  change const_open_line
    with (text_line "PUBLIC_CHAIN_RPCS: dict[str, dict[str, list[str]]] = {").
  change const_close with (text_line "}").
  now rewrite (map_ext _ _ render_ecosystem_text).
Qed.

(** The text to write for a Python dict, spelled out. *)
Lemma written_text_wf (env : Env) (chains : dict (dict Chain)) :
  dict_wf chains ->
  written_text env chains = file_text (utcnow env) (emitted chains).
Proof.
  intros Hwf. rewrite <- render_file_text.
  unfold written_text. now rewrite (ecosystem_blocks_wf _ Hwf).
Qed.

(* ================================================================== *)
(** ** Outcomes that do not depend on the state *)

Lemma state_blind_ret {A} (a : A) : state_blind (ret a).
Proof. now intros s1 s2. Qed.

Lemma state_blind_raise {A} (e : exn) : state_blind (@raise A e).
Proof. now intros s1 s2. Qed.

Lemma state_blind_log msg : state_blind (logger_info msg).
Proof. now intros s1 s2. Qed.

Lemma state_blind_getitem {V} (d : dict V) k : state_blind (getitem d k).
Proof.
  unfold getitem. destruct (dict_get d k);
    [apply state_blind_ret | apply state_blind_raise].
Qed.

Lemma state_blind_bind {A B} (m : M A) (k : A -> M B) :
  state_blind m -> (forall a, state_blind (k a)) -> state_blind (bind m k).
Proof.
  intros Hm Hk s1 s2. unfold bind. specialize (Hm s1 s2).
  destruct (m s1) as [[e1|a1] t1], (m s2) as [[e2|a2] t2]; simpl in Hm;
    try discriminate.
  - now injection Hm as ->.
  - injection Hm as ->. apply Hk.
Qed.

Lemma state_blind_for_fold {A S} (l : list A) (body : S -> A -> M S) :
  (forall acc x, state_blind (body acc x)) ->
  forall acc, state_blind (for_fold l body acc).
Proof.
  intros Hb. induction l as [|x l IH]; intros acc; simpl.
  - apply state_blind_ret.
  - apply state_blind_bind; auto.
Qed.

Lemma state_blind_fetch_chain env chain_id : state_blind (fetch_chain env chain_id).
Proof. intros s1 s2. now rewrite !fetch_chain_run. Qed.

(** What the Aggregator returns or raises is decided by the registry and
    the registry source alone. *)
Lemma state_blind_fetch_chains env registry :
  state_blind (fetch_chains_over env registry).
Proof.
  apply state_blind_for_fold. intros acc e. unfold ecosystem_step.
  apply state_blind_bind; [apply state_blind_getitem|intros nets].
  apply state_blind_for_fold. intros acc' item.
  unfold network_step, network_step_with.
  apply state_blind_bind; [apply state_blind_log|intros _].
  apply state_blind_bind; [apply state_blind_fetch_chain|intros c].
  apply state_blind_bind; [apply state_blind_getitem|intros sub].
  apply state_blind_ret.
Qed.

(** The clock, the path of the generated file and the file system play
    no part in the Aggregator. *)
Lemma fetch_chains_clock_free get validate t1 p1 o1 w1 t2 p2 o2 w2 registry :
  fetch_chains_over (mkEnv get validate t1 p1 o1 w1) registry
  = fetch_chains_over (mkEnv get validate t2 p2 o2 w2) registry.
Proof. reflexivity. Qed.

(** The run, once the Aggregator has returned, on a destination that can
    be opened and written. *)
Lemma main_over_written env registry st chains st' :
  accepting env ->
  fetch_chains_over env registry (logged_start env st) = (inr chains, st') ->
  main_over env registry st =
  (inr tt, mkState (log st') (Some (written_text env chains))).
Proof.
  intros Ha E. rewrite main_over_run, (bind_inr _ _ _ _ _ E).
  now apply write_chain_const_run.
Qed.

(** A run that returns has fetched every chain and written the whole
    text, whatever the file system is. *)
Lemma main_over_returned env registry st :
  fst (main_over env registry st) = inr tt ->
  exists chains st',
    fetch_chains_over env registry (logged_start env st) = (inr chains, st')
    /\ main_over env registry st =
       (inr tt, mkState (log st') (Some (written_text env chains))).
Proof.
  rewrite main_over_run.
  destruct (fetch_chains_over env registry (logged_start env st))
    as [[ex|chains] st'] eqn:E.
  - rewrite (bind_inl _ _ _ _ _ E). discriminate.
  - rewrite (bind_inr _ _ _ _ _ E). intros H.
    exists chains, st'. split; [reflexivity|].
    now apply write_chain_const_returned.
Qed.

Lemma str_concat_in_split {A} (f : A -> string) (l : list A) (x : A) :
  In x l -> exists pre post, str_concat (map f l) = pre ++ f x ++ post.
Proof.
  intros H. apply in_split in H as (l1 & l2 & ->).
  exists (str_concat (map f l1)), (str_concat (map f l2)).
  now rewrite map_app, str_concat_app.
Qed.



(** Decides that a concrete dictionary has no repeated key. *)
Ltac nodup_strings :=
  repeat match goal with
         | |- dict2_wf _ => split
         | |- dict_wf _ => unfold dict_wf, dict_keys; simpl map
         | |- Forall _ _ => constructor
         | |- NoDup [] => constructor
         | |- NoDup (_ :: _) => constructor
         | |- ~ In _ _ => simpl; intuition discriminate
         end.

(* ================================================================== *)
(** ** The claims of the specification *)

(** A fetch that gets a non-200 answer, or a body the validator rejects,
    ends in an exception. *)
Lemma fetch_result_failure env chain_id r :
  requests_get env (chain_url chain_id) = Some r ->
  status_code r <> 200%Z \/ model_validate_json env (text r) = None ->
  exists ex, fetch_result env chain_id = inl ex.
Proof.
  intros Hr H. destruct (Z.eq_dec (status_code r) 200) as [Hs|Hs].
  - destruct H as [H|H]; [contradiction|].
    eexists. now apply (fetch_result_invalid env chain_id r).
  - eexists. now apply (fetch_result_bad_status env chain_id r).
Qed.

(** C1.  Whatever the registry, when the fetch of one of its chain ids
    fails (the answer has a status other than 200, or its body is rejected
    by the [Chain] schema), the run ends in an exception and the generated
    file holds what it held before the run: the Writer never ran. *)
Theorem failed_fetch_aborts_before_write
  env registry e nets n chain_id r st :
  dict_get registry e = Some nets ->
  In (n, chain_id) (dict_items nets) ->
  requests_get env (chain_url chain_id) = Some r ->
  status_code r <> 200%Z \/ model_validate_json env (text r) = None ->
  exists ex st',
    main_over env registry st = (inl ex, st')
    /\ const_file st' = const_file st.
Proof.
  intros Hget Hin Hr Hbad.
  destruct (fetch_result_failure env chain_id r Hr Hbad) as [ex Hex].
  apply main_aborts.
  exact (fetch_chains_aborts env registry e nets n chain_id ex Hget Hin Hex).
Qed.

Lemma failed_fetch_aborts_before_write_witness :
  (exists ex st',
      main (env_status 404) st0 = (inl ex, st')
      /\ const_file st' = Some "previous content")
  /\ (exists ex st',
         main env_invalid st0 = (inl ex, st')
         /\ const_file st' = Some "previous content").
Proof.
  split.
  - apply (failed_fetch_aborts_before_write
             (env_status 404) CHAIN_IDS "ethereum"
             [("mainnet", 1%Z); ("goerli", 5%Z); ("sepolia", 11155111%Z)]
             "goerli" 5%Z (mkResponse 404 "{}") st0).
    + reflexivity.
    + simpl. right. left. reflexivity.
    + reflexivity.
    + left. simpl. discriminate.
  - apply (failed_fetch_aborts_before_write
             env_invalid CHAIN_IDS "gnosis" [("mainnet", 100%Z)]
             "mainnet" 100%Z (mkResponse 200 "{}") st0).
    + reflexivity.
    + simpl. left. reflexivity.
    + reflexivity.
    + right. reflexivity.
Defined.

(** C10.  Every status other than exactly 200 is a failure of the fetch,
    the other 2xx statuses included: the fetch raises, and a run whose
    registry holds that chain id aborts without writing. *)
Theorem only_status_200_is_success env chain_id r :
  requests_get env (chain_url chain_id) = Some r ->
  status_code r <> 200%Z ->
  (forall st, exists ex st', fetch_chain env chain_id st = (inl ex, st'))
  /\ (forall registry e nets n st,
         dict_get registry e = Some nets ->
         In (n, chain_id) (dict_items nets) ->
         exists ex st',
           main_over env registry st = (inl ex, st')
           /\ const_file st' = const_file st).
Proof.
  intros Hr Hs.
  pose proof (fetch_result_bad_status env chain_id r Hr Hs) as Hf. split.
  - intros st. rewrite fetch_chain_run, Hf. eauto.
  - intros registry e nets n st Hget Hin. apply main_aborts.
    exact (fetch_chains_aborts env registry e nets n chain_id _ Hget Hin Hf).
Qed.

Lemma only_status_200_is_success_witness :
  (exists ex st', fetch_chain (env_status 201) 1%Z st0 = (inl ex, st'))
  /\ (exists ex st',
         main_over (env_status 204) registry2 st0 = (inl ex, st')
         /\ const_file st' = const_file st0).
Proof.
  split.
  - apply (proj1 (only_status_200_is_success
                    (env_status 201) 1%Z (mkResponse 201 "{}")
                    eq_refl ltac:(simpl; discriminate))).
  - apply (proj2 (only_status_200_is_success
                    (env_status 204) 2%Z (mkResponse 204 "{}")
                    eq_refl ltac:(simpl; discriminate))
             registry2 "ecosystem2" [("net", 2%Z)] "net" st0).
    + reflexivity.
    + simpl. left. reflexivity.
Defined.

(** C5, as the specification states it, fails: no reading of the raised
    exception gives back the response status, since two answers with
    different statuses raise the very same exception. *)
Lemma fetch_error_does_not_carry_status :
  ~ exists status_of : exn -> Z,
      forall env chain_id r st,
        requests_get env (chain_url chain_id) = Some r ->
        status_code r <> 200%Z ->
        exists ex st',
          fetch_chain env chain_id st = (inl ex, st')
          /\ status_of ex = status_code r.
Proof.
  intros [status_of H].
  destruct (H (env_status 404) 1%Z (mkResponse 404 "{}") st0 eq_refl
              ltac:(simpl; discriminate)) as (e1 & s1 & E1 & F1).
  destruct (H (env_status 500) 1%Z (mkResponse 500 "{}") st0 eq_refl
              ltac:(simpl; discriminate)) as (e2 & s2 & E2 & F2).
  rewrite fetch_chain_run in E1, E2.
  injection E1 as <- _. injection E2 as <- _.
  simpl in F1, F2. rewrite F1 in F2. discriminate.
Qed.

(** C5, amended.  When the answer has a status other than 200 the fetch
    raises a plain [Exception] whose message is "Failed to fetch "
    followed by the lookup URL, after logging the request; the message is
    the same whatever the status was. *)
Theorem fetch_error_carries_url env chain_id r st :
  requests_get env (chain_url chain_id) = Some r ->
  status_code r <> 200%Z ->
  fetch_chain env chain_id st =
  (inl (Exception ("Failed to fetch " ++ SOURCE_URL ++ "eip155-"
                     ++ str_of_int chain_id ++ ".json")),
   mkState (log st ++ [("GET " ++ chain_url chain_id)%string])%list
           (const_file st)).
Proof.
  intros Hr Hs. rewrite fetch_chain_run.
  now rewrite (fetch_result_bad_status env chain_id r Hr Hs).
Qed.

Lemma fetch_error_carries_url_witness :
  fst (fetch_chain (env_status 404) 1%Z st0) =
  inl (Exception
         "Failed to fetch https://raw.githubusercontent.com/ethereum-lists/chains/master/_data/chains/eip155-1.json").
Proof.
  rewrite (fetch_error_carries_url (env_status 404) 1%Z (mkResponse 404 "{}") st0
             eq_refl ltac:(simpl; discriminate)).
  reflexivity.
Defined.

(** C2.  On a 200 answer whose body the schema accepts, the fetch returns
    the validated record with its endpoint list replaced by the entries
    whose scheme is http or https, in their original order; every other
    field is as validated. *)
Theorem fetch_keeps_http_and_https env chain_id r c st :
  requests_get env (chain_url chain_id) = Some r ->
  status_code r = 200%Z ->
  model_validate_json env (text r) = Some c ->
  exists c' st',
    fetch_chain env chain_id st = (inr c', st')
    /\ rpc c' = filter keep_rpc (rpc c)
    /\ (forall x, keep_rpc x = true <-> scheme_of x "http" \/ scheme_of x "https")
    /\ (forall x, In x (rpc c') <->
                  In x (rpc c) /\ (scheme_of x "http" \/ scheme_of x "https"))
    /\ c' = set_rpc c (rpc c').
Proof.
  intros Hr Hs Hv. eexists. eexists. split.
  - rewrite fetch_chain_run, (fetch_result_ok env chain_id r c Hr Hs Hv).
    reflexivity.
  - simpl. split; [reflexivity|]. split; [exact keep_rpc_spec|].
    split; [|reflexivity].
    intros x. rewrite filter_In, keep_rpc_spec. reflexivity.
Qed.

Lemma fetch_keeps_http_and_https_witness :
  exists c' st',
    fetch_chain env2 1%Z st0 = (inr c', st')
    /\ rpc c' = ["https://a"; "http://c"].
Proof.
  destruct (fetch_keeps_http_and_https
              env2 1%Z (mkResponse 200 "one")
              (mock_chain 1 ["https://a"; "wss://b"; "http://c"]) st0
              eq_refl eq_refl eq_refl) as (c' & st' & E & R & _).
  exists c', st'. split; [exact E|]. rewrite R. reflexivity.
Defined.



(** C3.  Whatever the aggregated result (a Python dict), the text the
    Writer writes is, character for character, the file that lists under
    every ecosystem and network, in iteration order, the endpoints of the
    record with those containing "${" taken out and all the others kept in
    their order, one quoted endpoint per line.  The Writer returns on a
    destination that can be opened and written, and whenever it returns
    the file holds exactly that text. *)
Theorem writer_skips_placeholder_endpoints env chains st :
  dict_wf chains ->
  (accepting env -> fst (write_chain_const env chains st) = inr tt)
  /\ (fst (write_chain_const env chains st) = inr tt ->
      snd (write_chain_const env chains st) =
      mkState (log st)
        (Some (file_text (utcnow env)
                 (map (fun kv =>
                         (fst kv,
                          map (fun nc =>
                                 (fst nc,
                                  filter (fun r => negb (str_contains "${" r))
                                         (rpc (snd nc))))
                              (snd kv)))
                      chains))))
  /\ (forall r, str_contains "${" r = true <-> is_substring "${" r)
  /\ (forall l r, In r (filter (fun r => negb (str_contains "${" r)) l) <->
                  In r l /\ ~ is_substring "${" r).
Proof.
  intros Hwf. split; [|split; [|split]].
  - intros Ha. now rewrite (write_chain_const_run env chains st Ha).
  - intros Hr. rewrite (write_chain_const_returned env chains st Hr).
    simpl. now rewrite (written_text_wf env chains Hwf).
  - intros r. apply str_contains_spec.
  - exact literal_rpcs_spec.
Qed.

Lemma writer_skips_placeholder_endpoints_witness :
  write_chain_const env2 chains_demo st0 =
  (inr tt,
   mkState []
     (Some (str_concat
              (map text_line
                 [ "# This file is auto-generated by scripts/update_rpc.py";
                   "# 2024-01-01 00:00:00.000001";
                   "# Do not edit this file directly.";
                   "PUBLIC_CHAIN_RPCS: dict[str, dict[str, list[str]]] = {";
                   "    " ++ in_quotes "ecosystem1" ++ ": {";
                   "        " ++ in_quotes "net" ++ ": [";
                   "            " ++ in_quotes "https://a" ++ ",";
                   "            " ++ in_quotes "http://c" ++ ",";
                   "        ],";
                   "        " ++ in_quotes "empty" ++ ": [";
                   "        ],";
                   "        " ++ in_quotes "templated" ++ ": [";
                   "        ],";
                   "    },";
                   "}" ])))).
Proof.
  destruct (writer_skips_placeholder_endpoints env2 chains_demo st0
              ltac:(unfold chains_demo; nodup_strings)) as (R & F & _).
  assert (A : accepting env2) by (split; [reflexivity|intros t s; reflexivity]).
  specialize (F (R A)). specialize (R A).
  destruct (write_chain_const env2 chains_demo st0) as [r s'].
  simpl in R, F. subst r s'. reflexivity.
Defined.

(** C4, as the specification states it, fails: with the Fetcher itself
    replaced by one that returns the two records as given, the websocket
    endpoint of chain 1 is written out, for the Writer only takes out the
    entries that contain "${". *)
Lemma mocked_fetcher_lets_websocket_through :
  const_file (snd (main_with mock_fetch_chain env2 registry2 st0))
  = Some (file_text (utcnow env2)
            [("ecosystem1", [("net", ["https://a"; "wss://b"; "http://c"])]);
             ("ecosystem2", [("net", ["https://d"])])])
  /\ const_file (snd (main_with mock_fetch_chain env2 registry2 st0))
     <> Some (file_text (utcnow env2)
                [("ecosystem1", [("net", ["https://a"; "http://c"])]);
                 ("ecosystem2", [("net", ["https://d"])])]).
Proof.
  split; [reflexivity|]. vm_compute. discriminate.
Qed.

(** C4, amended.  With the registry ecosystem1: net -> 1, ecosystem2:
    net -> 2, a registry source that answers 200 for both chains with
    bodies validated to records listing "https://a", "wss://b", "http://c"
    for chain 1 and "https://d", "${X}/e" for chain 2, and a destination
    that can be opened and written, the run returns and the generated
    file is, character for character, the file that lists
    ecosystem1 -> net -> "https://a", "http://c" and
    ecosystem2 -> net -> "https://d". *)
Theorem two_ecosystem_scenario env r1 r2 c1 c2 st :
  requests_get env (chain_url 1) = Some r1 ->
  status_code r1 = 200%Z ->
  model_validate_json env (text r1) = Some c1 ->
  rpc c1 = ["https://a"; "wss://b"; "http://c"] ->
  requests_get env (chain_url 2) = Some r2 ->
  status_code r2 = 200%Z ->
  model_validate_json env (text r2) = Some c2 ->
  rpc c2 = ["https://d"; "${X}/e"] ->
  accepting env ->
  exists st',
    main_over env registry2 st = (inr tt, st')
    /\ const_file st' =
       Some (file_text (utcnow env)
               [("ecosystem1", [("net", ["https://a"; "http://c"])]);
                ("ecosystem2", [("net", ["https://d"])])]).
Proof.
  intros Hr1 Hs1 Hv1 Hl1 Hr2 Hs2 Hv2 Hl2 Ha.
  pose proof (fetch_result_ok env 1 r1 c1 Hr1 Hs1 Hv1) as F1.
  pose proof (fetch_result_ok env 2 r2 c2 Hr2 Hs2 Hv2) as F2.
  rewrite Hl1 in F1. rewrite Hl2 in F2.
  change (filter keep_rpc ["https://a"; "wss://b"; "http://c"])
    with ["https://a"; "http://c"] in F1.
  change (filter keep_rpc ["https://d"; "${X}/e"]) with ["https://d"] in F2.
  destruct (fetch_chains_ok env registry2 (logged_start env st))
    as (chains & st' & E & F & _).
  - unfold registry2. nodup_strings.
  - intros kv item [<-|[<-|[]]] [<-|[]]; simpl; eauto.
  - inversion F as [|x1 y1 l1 l1' [K1 N1] T1]; subst.
    inversion T1 as [|x2 y2 l2 l2' [K2 N2] T2]; subst.
    inversion T2; subst. clear F T1 T2.
    destruct y1 as [k1 s1], y2 as [k2 s2]. simpl in *. subst k1 k2.
    inversion N1 as [|a1 b1 m1 m1' [A1 B1] U1]; subst.
    inversion U1; subst.
    inversion N2 as [|a2 b2 m2 m2' [A2 B2] U2]; subst.
    inversion U2; subst. clear N1 N2 U1 U2.
    destruct b1 as [n1 d1], b2 as [n2 d2]. simpl in *. subst n1 n2.
    rewrite F1 in B1. rewrite F2 in B2.
    injection B1 as <-. injection B2 as <-.
    eexists. split.
    + exact (main_over_written env registry2 st _ _ Ha E).
    + simpl. rewrite written_text_wf by nodup_strings. reflexivity.
Qed.

Lemma two_ecosystem_scenario_witness :
  exists st',
    main_over env2 registry2 st0 = (inr tt, st')
    /\ const_file st' =
       Some (str_concat
               (map text_line
                  [ "# This file is auto-generated by scripts/update_rpc.py";
                    "# 2024-01-01 00:00:00.000001";
                    "# Do not edit this file directly.";
                    "PUBLIC_CHAIN_RPCS: dict[str, dict[str, list[str]]] = {";
                    "    " ++ in_quotes "ecosystem1" ++ ": {";
                    "        " ++ in_quotes "net" ++ ": [";
                    "            " ++ in_quotes "https://a" ++ ",";
                    "            " ++ in_quotes "http://c" ++ ",";
                    "        ],";
                    "    },";
                    "    " ++ in_quotes "ecosystem2" ++ ": {";
                    "        " ++ in_quotes "net" ++ ": [";
                    "            " ++ in_quotes "https://d" ++ ",";
                    "        ],";
                    "    },";
                    "}" ])).
Proof.
  exact (two_ecosystem_scenario
           env2 (mkResponse 200 "one") (mkResponse 200 "two")
           (mock_chain 1 ["https://a"; "wss://b"; "http://c"])
           (mock_chain 2 ["https://d"; "${X}/e"]) st0
           eq_refl eq_refl eq_refl eq_refl eq_refl eq_refl eq_refl eq_refl
           (conj eq_refl (fun _ _ => eq_refl))).
Defined.

(** C6.  Two runs over the same registry against the same registry source
    (same answers, same validation), whatever their clocks, paths and
    file systems: whenever both return, each file is made of the banner
    line, the timestamp line of its run, and a remainder that is the same
    text in the two files.  When both destinations can be opened and
    written the two runs end alike: either both abort with the same
    exception and write nothing, or both return with such files. *)
Theorem reruns_differ_only_in_timestamp
  get validate t1 p1 o1 w1 t2 p2 o2 w2 registry st1 st2 :
  let run1 := main_over (mkEnv get validate t1 p1 o1 w1) registry st1 in
  let run2 := main_over (mkEnv get validate t2 p2 o2 w2) registry st2 in
  (fst run1 = inr tt -> fst run2 = inr tt ->
   exists body,
     const_file (snd run1) = Some (banner_line ++ ("# " ++ t1 ++ nl) ++ body)
     /\ const_file (snd run2) = Some (banner_line ++ ("# " ++ t2 ++ nl) ++ body))
  /\ (accepting (mkEnv get validate t1 p1 o1 w1) ->
      accepting (mkEnv get validate t2 p2 o2 w2) ->
      fst run1 = fst run2
      /\ ((exists body,
              fst run1 = inr tt
              /\ const_file (snd run1)
                 = Some (banner_line ++ ("# " ++ t1 ++ nl) ++ body)
              /\ const_file (snd run2)
                 = Some (banner_line ++ ("# " ++ t2 ++ nl) ++ body))
          \/ (exists ex,
                 fst run1 = inl ex
                 /\ const_file (snd run1) = const_file st1
                 /\ const_file (snd run2) = const_file st2))).
Proof.
  intros run1 run2. subst run1 run2.
  set (e1 := mkEnv get validate t1 p1 o1 w1).
  set (e2 := mkEnv get validate t2 p2 o2 w2).
  pose proof (state_blind_fetch_chains e1 registry
                (logged_start e1 st1) (logged_start e2 st2)) as B.
  pose proof (keeps_file_fetch_chains e1 registry (logged_start e1 st1)) as K1.
  pose proof (keeps_file_fetch_chains e2 registry (logged_start e2 st2)) as K2.
  change (fetch_chains_over e1 registry (logged_start e2 st2))
    with (fetch_chains_over e2 registry (logged_start e2 st2)) in B.
  split.
  - intros R1 R2.
    destruct (main_over_returned e1 registry st1 R1) as (c1 & s1 & E1 & M1).
    destruct (main_over_returned e2 registry st2 R2) as (c2 & s2 & E2 & M2).
    rewrite E1, E2 in B. simpl in B. injection B as <-.
    rewrite M1, M2.
    exists (notice_line ++ const_open_line
              ++ str_concat (map (ecosystem_block c1) (dict_keys c1))
              ++ const_close).
    split; reflexivity.
  - intros A1 A2.
    destruct (fetch_chains_over e1 registry (logged_start e1 st1))
      as [[ex|chains] s1] eqn:E1;
      destruct (fetch_chains_over e2 registry (logged_start e2 st2))
        as [[ex'|chains'] s2] eqn:E2;
      simpl in B; try discriminate; injection B as <-.
    + rewrite !main_over_run, (bind_inl _ _ _ _ _ E1), (bind_inl _ _ _ _ _ E2).
      split; [reflexivity|]. right. exists ex. simpl in *. auto.
    + rewrite (main_over_written e1 registry st1 chains s1 A1 E1),
              (main_over_written e2 registry st2 chains s2 A2 E2).
      split; [reflexivity|]. left.
      exists (notice_line ++ const_open_line
                ++ str_concat (map (ecosystem_block chains) (dict_keys chains))
                ++ const_close).
      repeat split.
Qed.

Lemma reruns_differ_only_in_timestamp_witness :
  exists body,
    const_file (snd (main_over env2 registry2 st0))
    = Some (banner_line ++ ("# " ++ "2024-01-01 00:00:00.000001" ++ nl) ++ body)
    /\ const_file
         (snd (main_over
                 (mkEnv (requests_get env2) (model_validate_json env2)
                        "2025-06-30 12:00:00" "/elsewhere/chains.py"
                        None (fun _ _ => None))
                 registry2 (mkState ["earlier"] None)))
       = Some (banner_line ++ ("# " ++ "2025-06-30 12:00:00" ++ nl) ++ body).
Proof.
  exact (proj1 (reruns_differ_only_in_timestamp
                  (requests_get env2) (model_validate_json env2)
                  "2024-01-01 00:00:00.000001" "/repo/src/ape_geth/chains.py"
                  None (fun _ _ => None)
                  "2025-06-30 12:00:00" "/elsewhere/chains.py"
                  None (fun _ _ => None)
                  registry2 st0 (mkState ["earlier"] None))
           eq_refl eq_refl).
Defined.

(** C7.  Over a registry all of whose fetches succeed, the Aggregator
    returns a nested mapping with the (ecosystem, network) pairs of the
    registry, in the registry's own order, each network holding what the
    fetch of its chain id returned; the sub-mapping of an ecosystem is made
    by [ensure_dict] only when a network of it is reached, so an ecosystem
    without networks gets none. *)
Theorem fetch_chains_follows_registry env registry st :
  dict2_wf registry ->
  (forall kv item, In kv registry -> In item (snd kv) ->
                   exists c, fst (fetch_chain env (snd item) st) = inr c) ->
  exists chains st',
    fetch_chains_over env registry st = (inr chains, st')
    /\ map fst (dict2_flat chains) = map fst (dict2_flat registry)
    /\ Forall2 (fun kv kc =>
                  fst kv = fst kc
                  /\ Forall2 (fun nid nc =>
                                fst nid = fst nc
                                /\ forall s, fst (fetch_chain env (snd nid) s)
                                             = inr (snd nc))
                             (snd kv) (snd kc))
               (inhabited registry) chains
    /\ dict_keys chains = dict_keys (inhabited registry)
    /\ (forall (d : dict (dict Chain)) k,
           ensure_dict d k = if dict_has d k then d else dict_set d k []).
Proof.
  intros Hwf Hok.
  destruct (fetch_chains_ok env registry st Hwf) as (chains & st' & E & F & _).
  { intros kv item Hkv Hitem. destruct (Hok kv item Hkv Hitem) as [c Hc].
    exists c. now rewrite fetch_chain_run in Hc. }
  exists chains, st'. split; [exact E|]. split; [|split; [|split]].
  - rewrite (registry_fetched_pairs _ _ _ F). apply f_equal, dict2_flat_inhabited.
  - clear -F. induction F as [|x y l l' [Hk Hn] _ IH]; constructor; [|exact IH].
    split; [exact Hk|]. destruct x as [k nets], y as [k' sub].
    unfold nets_fetched in Hn. simpl in Hn |- *. clear -Hn.
    induction Hn as [|a b m m' [Hab Hf] _ IHn]; constructor; [|exact IHn].
    split; [exact Hab|]. intros s. now rewrite fetch_chain_run.
  - exact (registry_fetched_keys _ _ _ F).
  - intros d k. unfold ensure_dict, dict_has. simpl.
    now destruct (dict_get d k).
Qed.

Lemma fetch_chains_follows_registry_witness :
  exists chains st',
    fetch_chains_over env2 registry_unsorted st0 = (inr chains, st')
    /\ map fst (dict2_flat chains) = [("zeta", "net"); ("alpha", "b"); ("alpha", "a")]
    /\ dict_keys chains = ["zeta"; "alpha"].
Proof.
  destruct (fetch_chains_follows_registry env2 registry_unsorted st0)
    as (chains & st' & E & P & _ & K & _).
  - unfold registry_unsorted. nodup_strings.
  - intros kv item [<-|[<-|[<-|[]]]] Hitem; simpl in Hitem.
    + destruct Hitem as [<-|[]]. eexists. reflexivity.
    + destruct Hitem.
    + destruct Hitem as [<-|[<-|[]]]; eexists; reflexivity.
  - exists chains, st'. split; [exact E|]. split; [exact P|exact K].
Defined.

(** A block inside a block inside the file. *)
Lemma block_in_file (a b c d p1 eo p2 blk q2 ec q1 cc : string) :
  a ++ b ++ c ++ d ++ (p1 ++ (eo ++ (p2 ++ blk ++ q2) ++ ec) ++ q1) ++ cc
  = (a ++ b ++ c ++ d ++ p1 ++ eo ++ p2) ++ blk ++ (q2 ++ ec ++ q1 ++ cc).
Proof. now rewrite !append_assoc. Qed.

(** C8.  Every network of the aggregated result has its block in the
    text the Writer writes: the line of its key in quotes with an opening
    bracket, its endpoint lines, and the line of the closing bracket.
    When its endpoint list is empty, or every entry of it contains "${",
    there is no endpoint line: the opening line is followed at once by
    the closing line, an empty list literal.  The Writer returns on a
    destination that can be opened and written, and whenever it returns
    the file holds the block. *)
Theorem every_network_is_emitted env chains e nets n c st :
  dict_get chains e = Some nets ->
  In (n, c) (dict_items nets) ->
  (accepting env -> fst (write_chain_const env chains st) = inr tt)
  /\ (fst (write_chain_const env chains st) = inr tt ->
      exists pre post,
        const_file (snd (write_chain_const env chains st)) =
        Some (pre ++ (text_line ("        " ++ in_quotes n ++ ": [")
                        ++ str_concat
                             (map endpoint_text (literal_rpcs (rpc c)))
                        ++ text_line "        ],")
                  ++ post))
  /\ ((forall r, In r (rpc c) -> is_substring "${" r) ->
      literal_rpcs (rpc c) = []).
Proof.
  intros Hget Hin. split; [|split].
  - intros Ha. now rewrite (write_chain_const_run env chains st Ha).
  - intros Hr. rewrite (write_chain_const_returned env chains st Hr).
    cbn [snd const_file]. unfold written_text.
    destruct (str_concat_in_split (ecosystem_block chains) (dict_keys chains) e
                (dict_get_key _ _ _ Hget)) as (p1 & q1 & E1).
    rewrite E1. unfold ecosystem_block, render_ecosystem.
    rewrite dict_get_emitted, Hget. cbn [option_map fst snd]. rewrite map_map.
    destruct (str_concat_in_split
                (fun x => render_network (fst x, literal_rpcs (rpc (snd x))))
                nets (n, c) Hin) as (p2 & q2 & E2).
    rewrite E2, render_network_text. unfold network_text. cbn [fst snd].
    eexists. eexists. f_equal. apply block_in_file.
  - intros Hall. unfold literal_rpcs.
    induction (rpc c) as [|r l IH]; [reflexivity|]. simpl.
    assert (Hr : str_contains "${" r = true)
      by (apply str_contains_spec, Hall; now left).
    rewrite Hr. simpl. apply IH. intros x Hx. apply Hall. now right.
Qed.

Lemma every_network_is_emitted_witness :
  (exists pre post,
      const_file (snd (write_chain_const env2 chains_demo st0)) =
      Some (pre ++ (text_line ("        " ++ in_quotes "templated" ++ ": [")
                      ++ text_line "        ],")
                ++ post))
  /\ (exists pre post,
         const_file (snd (write_chain_const env2 chains_demo st0)) =
         Some (pre ++ (text_line ("        " ++ in_quotes "empty" ++ ": [")
                         ++ text_line "        ],")
                   ++ post)).
Proof.
  assert (A : accepting env2) by (split; [reflexivity|intros t s; reflexivity]).
  split.
  - destruct (every_network_is_emitted
                env2 chains_demo "ecosystem1" _ "templated"
                (mock_chain 4 ["https://x/${API_KEY}"; "${Y}"]) st0
                eq_refl ltac:(simpl; tauto)) as (R & F & _).
    exact (F (R A)).
  - destruct (every_network_is_emitted
                env2 chains_demo "ecosystem1" _ "empty"
                (mock_chain 3 []) st0
                eq_refl ltac:(simpl; tauto)) as (R & F & _).
    exact (F (R A)).
Defined.

(* ================================================================== *)
(** ** Fail-fast loops *)

Lemma first_failure_app {A} (fail : A -> option exn) (l1 l2 : list A) :
  first_failure fail (l1 ++ l2)%list =
  match first_failure fail l1 with
  | Some ex => Some ex
  | None => first_failure fail l2
  end.
Proof.
  induction l1 as [|x l1 IH]; simpl; [reflexivity|].
  now destruct (fail x).
Qed.

Lemma attempted_app {A} (fail : A -> option exn) (l1 l2 : list A) :
  attempted fail (l1 ++ l2)%list =
  match first_failure fail l1 with
  | Some _ => attempted fail l1
  | None => (l1 ++ attempted fail l2)%list
  end.
Proof.
  induction l1 as [|x l1 IH]; simpl; [reflexivity|].
  destruct (fail x); [reflexivity|]. rewrite IH.
  now destruct (first_failure fail l1).
Qed.

Lemma first_failure_map {A B} (fail : B -> option exn) (h : A -> B) (l : list A) :
  first_failure fail (map h l) = first_failure (fun x => fail (h x)) l.
Proof.
  induction l as [|x l IH]; simpl; [reflexivity|]. now rewrite IH.
Qed.

Lemma attempted_map {A B} (fail : B -> option exn) (h : A -> B) (l : list A) :
  attempted fail (map h l) = map h (attempted (fun x => fail (h x)) l).
Proof.
  induction l as [|x l IH]; simpl; [reflexivity|].
  destruct (fail (h x)); [reflexivity|]. now rewrite IH.
Qed.

Lemma attempted_all {A} (fail : A -> option exn) (l : list A) :
  first_failure fail l = None -> attempted fail l = l.
Proof.
  induction l as [|x l IH]; simpl; [reflexivity|].
  destruct (fail x); [discriminate|]. intros H. now rewrite IH.
Qed.

(** The loop stops at the first element at which its body raises: it
    raises that exception, and has logged the lines of the elements it
    reached and of no other. *)
Lemma for_fold_trace {A S} (body : S -> A -> M S)
  (lines : A -> list string) (fail : A -> option exn) (l : list A) :
  (forall x, In x l -> forall acc st, exists r,
        body acc x st = (r, mkState (log st ++ lines x)%list (const_file st))
        /\ match fail x with
           | Some ex => r = inl ex
           | None => exists acc', r = inr acc'
           end) ->
  forall acc st, exists r,
    for_fold l body acc st
    = (r, mkState (log st ++ flat_map lines (attempted fail l))%list (const_file st))
    /\ match first_failure fail l with
       | Some ex => r = inl ex
       | None => exists acc', r = inr acc'
       end.
Proof.
  induction l as [|x l IH]; intros H acc st.
  - exists (inr acc). simpl. rewrite app_nil_r. destruct st. split; eauto.
  - destruct (H x (or_introl eq_refl) acc st) as (r & E & Hr).
    simpl. destruct (fail x) as [ex|].
    + subst r. exists (inl ex). rewrite (bind_inl _ _ _ _ _ E).
      simpl. now rewrite app_nil_r.
    + destruct Hr as [acc' ->]. rewrite (bind_inr _ _ _ _ _ E).
      destruct (IH (fun y Hy => H y (or_intror Hy)) acc'
                  (mkState (log st ++ lines x)%list (const_file st)))
        as (r & E' & Hr').
      exists r. split; [|exact Hr'].
      rewrite E'. simpl. now rewrite <- app_assoc.
Qed.

(* ================================================================== *)
(** ** More on dictionaries *)

Lemma dict_get_none_absent {V} (d : dict V) k :
  dict_get d k = None -> ~ In k (dict_keys d).
Proof.
  intros H Hin. destruct (dict_get_present d k Hin) as [v E]. congruence.
Qed.

Lemma dict_get_set_same {V} (d : dict V) k v :
  dict_get (dict_set d k v) k = Some v.
Proof.
  induction d as [|[k' v'] d IH]; simpl.
  - now rewrite String.eqb_refl.
  - destruct (String.eqb_spec k' k) as [->|Hk]; simpl.
    + now rewrite String.eqb_refl.
    + destruct (String.eqb_spec k' k); [contradiction|exact IH].
Qed.

Lemma dict_get_set_other {V} (d : dict V) k k' v :
  k' <> k -> dict_get (dict_set d k v) k' = dict_get d k'.
Proof.
  intros Hk. induction d as [|[k0 v0] d IH]; simpl.
  - destruct (String.eqb_spec k k'); [congruence|reflexivity].
  - destruct (String.eqb_spec k0 k) as [->|H0]; simpl.
    + destruct (String.eqb_spec k k'); [congruence|reflexivity].
    + destruct (String.eqb_spec k0 k'); [reflexivity|exact IH].
Qed.

Lemma dict_keys_set_present {V} (d : dict V) k v :
  In k (dict_keys d) -> dict_keys (dict_set d k v) = dict_keys d.
Proof.
  induction d as [|[k0 v0] d IH]; simpl; [contradiction|].
  destruct (String.eqb_spec k0 k) as [->|H0]; [reflexivity|].
  intros [H|H]; [contradiction|]. simpl. now rewrite IH.
Qed.

Lemma dict_keys_ensure {V} `{PyValue V} (d : dict V) k :
  dict_keys (ensure_dict d k) =
  if dict_has d k then dict_keys d else (dict_keys d ++ [k])%list.
Proof.
  unfold ensure_dict, dict_has. destruct (dict_get d k) as [v|] eqn:E; simpl.
  - destruct (isinstance_dict v); [reflexivity|].
    apply dict_keys_set_present. exact (dict_get_key _ _ _ E).
  - rewrite (dict_set_absent _ _ _ (dict_get_none_absent _ _ E)).
    now rewrite dict_keys_app.
Qed.

(** After [ensure_dict] the subscript finds a dict. *)
Lemma ensure_dict_get {V} `{PyValue V} (d : dict V) k :
  exists sub, dict_get (ensure_dict d k) k = Some sub
              /\ isinstance_dict sub = true.
Proof.
  unfold ensure_dict, dict_has. destruct (dict_get d k) as [v|] eqn:E; simpl.
  - destruct (isinstance_dict v) eqn:I.
    + now exists v.
    + exists new_dict. split; [apply dict_get_set_same|apply new_dict_is_dict].
  - exists new_dict. split; [apply dict_get_set_same|apply new_dict_is_dict].
Qed.

(* ================================================================== *)
(** ** The Aggregator stops at the first failed fetch *)

Lemma flat_map_of_map {A B C} (f : B -> list C) (h : A -> B) (l : list A) :
  flat_map f (map h l) = flat_map (fun x => f (h x)) l.
Proof.
  induction l as [|x l IH]; simpl; [reflexivity|]. now rewrite IH.
Qed.

(** One network: its two lines are logged whatever the fetch does, the
    fetch decides alone whether the step raises, and the subscript after
    [ensure_dict] never does. *)
Lemma network_step_trace env e chains item st :
  exists r,
    network_step env e chains item st
    = (r, mkState (log st ++ entry_lines (e, fst item, snd item))%list
                  (const_file st))
    /\ match fetch_failure env (snd item) with
       | Some ex => r = inl ex
       | None => exists acc', r = inr acc'
       end.
Proof.
  unfold network_step, network_step_with, bind at 1, logger_info.
  unfold bind at 1.
  rewrite fetch_chain_run. unfold fetch_failure, entry_lines.
  destruct (fetch_result env (snd item)) as [ex|c].
  - exists (inl ex). simpl. rewrite <- app_assoc. split; reflexivity.
  - destruct (ensure_dict_get chains e) as (sub & Hs & _).
    unfold getitem. rewrite Hs, bind_ret. unfold ret. simpl.
    rewrite <- app_assoc. eexists. split; [reflexivity|eauto].
Qed.

Lemma networks_trace env e nets acc st :
  exists r,
    for_fold nets (network_step env e) acc st
    = (r, mkState
            (log st ++ flat_map entry_lines
                         (attempted (entry_failure env)
                            (map (fun it => (e, fst it, snd it)) nets)))%list
            (const_file st))
    /\ match first_failure (entry_failure env)
               (map (fun it => (e, fst it, snd it)) nets) with
       | Some ex => r = inl ex
       | None => exists acc', r = inr acc'
       end.
Proof.
  rewrite attempted_map, first_failure_map, flat_map_of_map.
  apply (for_fold_trace (network_step env e)
           (fun it => entry_lines (e, fst it, snd it))
           (fun it => entry_failure env (e, fst it, snd it))).
  intros item _ acc' st'. apply network_step_trace.
Qed.

Lemma ecosystems_trace env registry :
  forall rest acc st,
    (forall kv, In kv rest -> dict_get registry (fst kv) = Some (snd kv)) ->
    exists r,
      for_fold (dict_keys rest) (ecosystem_step env registry) acc st
      = (r, mkState
              (log st ++ flat_map entry_lines
                           (attempted (entry_failure env) (dict2_flat rest)))%list
              (const_file st))
      /\ match first_failure (entry_failure env) (dict2_flat rest) with
         | Some ex => r = inl ex
         | None => exists acc', r = inr acc'
         end.
Proof.
  induction rest as [|[e nets] rest IH]; intros acc st Hget.
  - exists (inr acc). simpl. rewrite app_nil_r. destruct st. split; eauto.
  - pose proof (Hget (e, nets) (or_introl eq_refl)) as He. simpl in He.
    change (dict2_flat ((e, nets) :: rest))
      with (map (fun it => (e, fst it, snd it)) nets ++ dict2_flat rest)%list.
    rewrite attempted_app, first_failure_app.
    simpl for_fold. unfold ecosystem_step at 1, getitem. rewrite He, bind_ret.
    destruct (networks_trace env e nets acc st) as (r1 & E1 & H1).
    destruct (first_failure (entry_failure env)
                (map (fun it => (e, fst it, snd it)) nets)) as [ex|] eqn:F.
    + subst r1. exists (inl ex). split; [|reflexivity].
      now rewrite (bind_inl _ _ _ _ _ E1).
    + destruct H1 as [acc' ->]. rewrite (attempted_all _ _ F) in E1.
      rewrite (bind_inr _ _ _ _ _ E1).
      destruct (IH acc' (mkState
                           (log st ++ flat_map entry_lines
                              (map (fun it => (e, fst it, snd it)) nets))%list
                           (const_file st)))
        as (r & E & H).
      { intros kv Hkv. apply Hget. now right. }
      exists r. split; [|exact H]. rewrite E. simpl.
      now rewrite flat_map_app, app_assoc.
Qed.

(** The trace of the Aggregator over a registry without repeated
    ecosystem: shared by the statements below. *)
Lemma fetch_chains_trace env registry st :
  dict_wf registry ->
  exists r,
    fetch_chains_over env registry st
    = (r, mkState
            (log st ++ flat_map entry_lines
                         (attempted (entry_failure env) (dict2_flat registry)))%list
            (const_file st))
    /\ match first_failure (entry_failure env) (dict2_flat registry) with
       | Some ex => r = inl ex
       | None => exists chains, r = inr chains
       end.
Proof.
  intros Hwf. apply ecosystems_trace.
  intros [k v] Hkv. now apply dict_wf_get.
Qed.

(** X2.  Over a registry that is a Python dict, the Aggregator walks the
    entries in registry order and stops at the first whose fetch raises:
    it raises that very exception (and never a [KeyError]), it has logged
    the two lines of every entry up to and including that one and of no
    later entry, and it leaves the generated file alone.  When no fetch
    raises it returns a mapping, having logged the lines of every entry. *)
Theorem fetch_chains_stops_at_first_failure env registry st :
  dict_wf registry ->
  exists r,
    fetch_chains_over env registry st
    = (r, mkState
            (log st ++ flat_map entry_lines
                         (attempted (entry_failure env) (dict2_flat registry)))%list
            (const_file st))
    /\ match first_failure (entry_failure env) (dict2_flat registry) with
       | Some ex => r = inl ex
       | None => exists chains, r = inr chains
       end.
Proof. exact (fetch_chains_trace env registry st). Qed.

Lemma fetch_chains_stops_at_first_failure_witness :
  fetch_chains_over env2 registry_broken st0
  = (inl (Exception ("Failed to fetch " ++ chain_url 7)),
     mkState [ "Fetching chain ecosystem1:first (1)"; "GET " ++ chain_url 1;
               "Fetching chain ecosystem1:missing (7)"; "GET " ++ chain_url 7 ]
             (Some "previous content")).
Proof.
  destruct (fetch_chains_stops_at_first_failure env2 registry_broken st0
              ltac:(unfold registry_broken; nodup_strings)) as (r & E & H).
  vm_compute in H. rewrite E, H. reflexivity.
Defined.

(** X4.  A run over a registry that is a Python dict logs its three
    opening lines and then what the Aggregator logs, whatever happens
    next: the Writer logs nothing.  It ends with the exception of the
    first entry whose fetch raises, the file untouched.  When no fetch
    raises and the destination cannot be opened, it ends with the
    exception of [open], the file untouched.  When it can be opened the
    previous content is gone; the run returns if every write is taken,
    and whenever it returns the file starts with the banner line and the
    timestamp line. *)
Theorem main_outcome_and_log env registry st :
  dict_wf registry ->
  log (snd (main_over env registry st))
  = (log st ++ start_lines env
       ++ flat_map entry_lines
            (attempted (entry_failure env) (dict2_flat registry)))%list
  /\ match first_failure (entry_failure env) (dict2_flat registry) with
     | Some ex =>
         fst (main_over env registry st) = inl ex
         /\ const_file (snd (main_over env registry st)) = const_file st
     | None =>
         match open_error env with
         | Some ex =>
             fst (main_over env registry st) = inl ex
             /\ const_file (snd (main_over env registry st)) = const_file st
         | None =>
             (exists p, forall st0',
                 const_file (snd (main_over env registry st))
                 = Some p
                 /\ const_file (snd (main_over env registry
                                       (mkState (log st) st0')))
                    = Some p)
             /\ (writes_accepted env -> fst (main_over env registry st) = inr tt)
             /\ (fst (main_over env registry st) = inr tt ->
                 exists body,
                   const_file (snd (main_over env registry st))
                   = Some (text_line
                             "# This file is auto-generated by scripts/update_rpc.py"
                             ++ text_line ("# " ++ utcnow env) ++ body))
         end
     end.
Proof.
  intros Hwf.
  assert (G : forall st1,
             exists r,
               fetch_chains_over env registry (logged_start env st1)
               = (r, mkState
                       (log st1 ++ start_lines env
                          ++ flat_map entry_lines
                               (attempted (entry_failure env)
                                          (dict2_flat registry)))%list
                       (const_file st1))
               /\ match first_failure (entry_failure env) (dict2_flat registry) with
                  | Some ex => r = inl ex
                  | None => exists chains, r = inr chains
                  end).
  { intros st1.
    destruct (fetch_chains_trace env registry (logged_start env st1) Hwf)
      as (r & E & H).
    exists r. split; [|exact H]. rewrite E. simpl. now rewrite <- app_assoc. }
  pose proof (state_blind_fetch_chains env registry) as B.
  destruct (first_failure (entry_failure env) (dict2_flat registry)) as [ex|].
  - destruct (G st) as (r & E & ->). rewrite main_over_run, (bind_inl _ _ _ _ _ E).
    repeat split.
  - destruct (G st) as (r & E & chains & ->).
    rewrite main_over_run, (bind_inr _ _ _ _ _ E).
    pose proof (write_chain_const_cases env chains) as W.
    destruct (open_error env) as [ex|].
    + rewrite W. repeat split.
    + destruct W as (r & p & Ew & _ & C & A). rewrite Ew. simpl.
      split; [reflexivity|]. split; [|split].
      * exists p. intros c0. split; [reflexivity|].
        destruct (G (mkState (log st) c0)) as (r' & E' & chains' & ->).
        specialize (B (logged_start env st) (logged_start env (mkState (log st) c0))).
        rewrite E, E' in B. simpl in B. injection B as <-.
        now rewrite main_over_run, (bind_inr _ _ _ _ _ E'), Ew.
      * exact A.
      * intros Hr. rewrite (C Hr). eexists. reflexivity.
Qed.

Lemma main_outcome_and_log_witness :
  (fst (main_over env2 registry_broken st0)
   = inl (Exception ("Failed to fetch " ++ chain_url 7))
   /\ const_file (snd (main_over env2 registry_broken st0))
      = Some "previous content")
  /\ (fst (main_over env2_unwritable registry2 st0)
      = inl (OSError "No such file or directory")
      /\ const_file (snd (main_over env2_unwritable registry2 st0))
         = Some "previous content").
Proof.
  split.
  - destruct (main_outcome_and_log env2 registry_broken st0
                ltac:(unfold registry_broken; nodup_strings)) as (_ & H).
    vm_compute in H. exact H.
  - destruct (main_outcome_and_log env2_unwritable registry2 st0
                ltac:(unfold registry2; nodup_strings)) as (_ & H).
    vm_compute in H. exact H.
Defined.

(* ================================================================== *)
(** ** From the registry source to the generated file *)

(** The endpoints of a fetched record are those of the validated body
    that pass the scheme filter. *)
Lemma fetch_result_rpc env chain_id c :
  fetch_result env chain_id = inr c ->
  rpc c = filter keep_rpc (source_rpc env chain_id).
Proof.
  unfold fetch_result, source_rpc.
  destruct (requests_get env (chain_url chain_id)) as [r|]; [|discriminate].
  destruct (negb (status_code r =? 200)%Z); [discriminate|].
  destruct (model_validate_json env (text r)) as [c0|]; [|discriminate].
  now intros [= <-].
Qed.

(** The Writer's test after the Fetcher's is one filter. *)
Lemma literal_rpcs_after_keep (l : list string) :
  literal_rpcs (filter keep_rpc l) = filter published l.
Proof.
  unfold literal_rpcs, published. induction l as [|r l IH]; [reflexivity|].
  simpl. destruct (keep_rpc r); simpl; [|exact IH].
  destruct (str_contains "${" r); simpl; [exact IH|now rewrite IH].
Qed.

Lemma published_spec (r : string) :
  published r = true <->
  (scheme_of r "http" \/ scheme_of r "https") /\ ~ is_substring "${" r.
Proof.
  unfold published.
  now rewrite andb_true_iff, negb_true_iff, keep_rpc_spec, str_contains_false.
Qed.

Lemma emitted_of_fetched env registry chains :
  registry_fetched env registry chains ->
  emitted chains =
  map (fun kv =>
         (fst kv,
          map (fun nid => (fst nid, filter published (source_rpc env (snd nid))))
              (snd kv)))
      registry.
Proof.
  induction 1 as [|[e nets] [e' sub] l l' [Hk Hn] _ IH]; [reflexivity|].
  simpl in Hk, Hn. subst e'. simpl. rewrite <- IH. f_equal. f_equal.
  clear -Hn. unfold nets_fetched in Hn.
  induction Hn as [|[n chain_id] [n' c] m m' [Hab Hf] _ IHn]; [reflexivity|].
  simpl in Hab, Hf. subst n'. simpl. rewrite IHn. do 2 f_equal.
  now rewrite (fetch_result_rpc env chain_id c Hf), literal_rpcs_after_keep.
Qed.

Lemma dict_wf_inhabited {V} (registry : dict (dict V)) :
  dict_wf registry -> dict_wf (inhabited registry).
Proof.
  unfold dict_wf, inhabited, dict_keys.
  induction registry as [|[e nets] registry IH]; simpl; intros H; [constructor|].
  inversion H as [|? ? Hnot Hnd]; subst.
  destruct nets; simpl; [now apply IH|].
  constructor; [|now apply IH].
  intros Hin. apply Hnot. apply in_map_iff in Hin as (kv & <- & Hkv).
  apply filter_In in Hkv as [Hkv _]. now apply in_map.
Qed.

(** X3.  When every chain id of a registry (a Python dict of dicts) is
    answered with status 200 and a body the schema accepts, and the
    destination can be opened and written, the run returns and the
    generated file is, character for character, the file that lists for
    every ecosystem that has a network and for every network of it, in
    registry order, the endpoints of the validated body that have scheme
    http or https and do not contain "${", in their order.  An ecosystem
    without networks does not appear in the file. *)
Theorem generated_file_from_source env registry st :
  dict2_wf registry ->
  (forall kv item, In kv registry -> In item (snd kv) ->
     exists r c,
       requests_get env (chain_url (snd item)) = Some r
       /\ status_code r = 200%Z
       /\ model_validate_json env (text r) = Some c) ->
  accepting env ->
  (exists st',
      main_over env registry st = (inr tt, st')
      /\ const_file st' =
         Some (file_text (utcnow env)
                 (map (fun kv =>
                         (fst kv,
                          map (fun nid =>
                                 (fst nid,
                                  filter published (source_rpc env (snd nid))))
                              (snd kv)))
                      (inhabited registry))))
  /\ (forall r, published r = true <->
                (scheme_of r "http" \/ scheme_of r "https")
                /\ ~ is_substring "${" r).
Proof.
  intros Hwf Hok Ha. split; [|exact published_spec].
  destruct (fetch_chains_ok env registry (logged_start env st) Hwf)
    as (chains & st' & E & F & _).
  { intros kv item Hkv Hitem.
    destruct (Hok kv item Hkv Hitem) as (r & c & Hr & Hs & Hv).
    eexists. exact (fetch_result_ok env _ r c Hr Hs Hv). }
  eexists. split.
  - exact (main_over_written env registry st chains st' Ha E).
  - simpl. rewrite written_text_wf.
    + now rewrite (emitted_of_fetched _ _ _ F).
    + unfold dict_wf. rewrite (registry_fetched_keys _ _ _ F).
      apply dict_wf_inhabited, Hwf.
Qed.

Lemma generated_file_from_source_witness :
  exists st',
    main_over env2 registry_unsorted st0 = (inr tt, st')
    /\ const_file st' =
       Some (str_concat
               (map text_line
                  [ "# This file is auto-generated by scripts/update_rpc.py";
                    "# 2024-01-01 00:00:00.000001";
                    "# Do not edit this file directly.";
                    "PUBLIC_CHAIN_RPCS: dict[str, dict[str, list[str]]] = {";
                    "    " ++ in_quotes "zeta" ++ ": {";
                    "        " ++ in_quotes "net" ++ ": [";
                    "            " ++ in_quotes "https://d" ++ ",";
                    "        ],";
                    "    },";
                    "    " ++ in_quotes "alpha" ++ ": {";
                    "        " ++ in_quotes "b" ++ ": [";
                    "            " ++ in_quotes "https://a" ++ ",";
                    "            " ++ in_quotes "http://c" ++ ",";
                    "        ],";
                    "        " ++ in_quotes "a" ++ ": [";
                    "            " ++ in_quotes "https://d" ++ ",";
                    "        ],";
                    "    },";
                    "}" ])).
Proof.
  refine (proj1 (generated_file_from_source env2 registry_unsorted st0 _ _ _)).
  - unfold registry_unsorted. nodup_strings.
  - intros kv item [<-|[<-|[<-|[]]]] Hitem; simpl in Hitem.
    + destruct Hitem as [<-|[]].
      exists (mkResponse 200 "two"), (mock_chain 2 ["https://d"; "${X}/e"]).
      repeat split.
    + destruct Hitem.
    + destruct Hitem as [<-|[<-|[]]].
      * exists (mkResponse 200 "one"),
               (mock_chain 1 ["https://a"; "wss://b"; "http://c"]).
        repeat split.
      * exists (mkResponse 200 "two"), (mock_chain 2 ["https://d"; "${X}/e"]).
        repeat split.
  - split; [reflexivity|intros t s; reflexivity].
Defined.



(* ================================================================== *)
(** ** [ensure_dict] and the lookup URL *)

(** X1.  After [ensure_dict(d, key)] the subscript [d[key]] succeeds and
    gives a dict.  A key present with a dict is left as it is, and so is
    all of [d]; a key present with a value that is not a dict gets the
    value [dict()] at the place it had; an absent key is appended with
    [dict()].  Every other key keeps its value, a second call changes
    nothing, and a dict without repeated keys stays one. *)
Theorem ensure_dict_keeps_entries {V} `{PyValue V} (d : dict V) (key : string) :
  (exists v, dict_get (ensure_dict d key) key = Some v
             /\ isinstance_dict v = true)
  /\ (forall v, dict_get d key = Some v -> isinstance_dict v = true ->
                ensure_dict d key = d)
  /\ (forall v, dict_get d key = Some v -> isinstance_dict v = false ->
                ensure_dict d key = dict_set d key new_dict
                /\ dict_get (ensure_dict d key) key = Some new_dict
                /\ dict_keys (ensure_dict d key) = dict_keys d)
  /\ (dict_get d key = None ->
      ensure_dict d key = (d ++ [(key, new_dict)])%list)
  /\ (forall k', k' <> key -> dict_get (ensure_dict d key) k' = dict_get d k')
  /\ ensure_dict (ensure_dict d key) key = ensure_dict d key
  /\ (dict_wf d -> dict_wf (ensure_dict d key)).
Proof.
  assert (Same : forall (d0 : dict V) v,
             dict_get d0 key = Some v -> isinstance_dict v = true ->
             ensure_dict d0 key = d0).
  { intros d0 v Hv Hi. unfold ensure_dict, dict_has. now rewrite Hv, Hi. }
  split; [apply ensure_dict_get|]. split; [exact (Same d)|].
  split; [|split; [|split; [|split]]].
  - intros v Hv Hi.
    assert (E : ensure_dict d key = dict_set d key new_dict)
      by (unfold ensure_dict, dict_has; now rewrite Hv, Hi).
    rewrite E. split; [reflexivity|]. split; [apply dict_get_set_same|].
    apply dict_keys_set_present. exact (dict_get_key _ _ _ Hv).
  - intros Hn. unfold ensure_dict, dict_has. rewrite Hn. simpl.
    apply dict_set_absent. now apply dict_get_none_absent.
  - intros k' Hk. unfold ensure_dict.
    destruct (dict_has d key && _); [reflexivity|].
    now apply dict_get_set_other.
  - destruct (ensure_dict_get d key) as (v & Hv & Hi).
    exact (Same (ensure_dict d key) v Hv Hi).
  - unfold dict_wf. rewrite dict_keys_ensure. unfold dict_has.
    destruct (dict_get d key) eqn:E; [trivial|]. intros Hwf.
    apply NoDup_app; [exact Hwf|repeat constructor; intros []|].
    intros a Ha [<-|[]]. now apply (dict_get_none_absent d key E).
Qed.

Lemma ensure_dict_keeps_entries_witness :
  ensure_dict any_demo "base" = any_demo
  /\ ensure_dict any_demo "count"
     = [("base", JDict [("mainnet", JInt 8453)]); ("count", JDict []);
        ("label", JStr "x")]
  /\ ensure_dict any_demo "gnosis"
     = [("base", JDict [("mainnet", JInt 8453)]); ("count", JInt 3);
        ("label", JStr "x"); ("gnosis", JDict [])]
  /\ dict_wf (ensure_dict any_demo "gnosis").
Proof.
  destruct (ensure_dict_keeps_entries any_demo "base") as (_ & S & _).
  destruct (ensure_dict_keeps_entries any_demo "count") as (_ & _ & R & _).
  destruct (ensure_dict_keeps_entries any_demo "gnosis")
    as (_ & _ & _ & A & _ & _ & W).
  split; [exact (S _ eq_refl eq_refl)|].
  split; [exact (proj1 (R _ eq_refl eq_refl))|].
  split; [exact (A eq_refl)|].
  apply W. unfold any_demo. nodup_strings.
Defined.

Lemma append_cancel_l (a x y : string) : a ++ x = a ++ y -> x = y.
Proof. induction a as [|c a IH]; simpl; [trivial|]. intros [= H]. auto. Qed.

Lemma str_length_app (a b : string) :
  String.length (a ++ b) = (String.length a + String.length b)%nat.
Proof. induction a as [|c a IH]; simpl; [reflexivity|now rewrite IH]. Qed.

Lemma append_cancel_r (s x y : string) : x ++ s = y ++ s -> x = y.
Proof.
  revert y; induction x as [|c x IH]; intros [|c' y] H; simpl in H.
  - reflexivity.
  - apply (f_equal String.length) in H. simpl in H.
    rewrite str_length_app in H. lia.
  - apply (f_equal String.length) in H. simpl in H.
    rewrite str_length_app in H. lia.
  - injection H as -> H. f_equal. now apply IH.
Qed.

(** The decimal text of an integer determines it. *)
Lemma str_of_int_inj (a b : Z) : str_of_int a = str_of_int b -> a = b.
Proof.
  unfold str_of_int. intros H. apply DecimalZ.to_int_inj.
  assert (N : forall z, NilZero.int_of_string (NilZero.string_of_int (Z.to_int z))
                        = Some (Z.to_int z)).
  { intros z. apply NilZero.isi; destruct z; simpl; try discriminate;
      intros [= E]; now apply DecimalPos.Unsigned.to_uint_nonnil in E. }
  pose proof (N a) as Na. rewrite H, N in Na. now injection Na.
Qed.

(** X6.  Two chain ids are looked up at the same URL only when they are
    the same id: the decimal id embedded in the file name tells them
    apart, negative ids included. *)
Theorem chain_url_injective (a b : Z) : chain_url a = chain_url b <-> a = b.
Proof.
  split; [|now intros ->].
  unfold chain_url, urljoin. intros H.
  apply append_cancel_l, append_cancel_l, append_cancel_r in H.
  now apply str_of_int_inj.
Qed.

Lemma chain_url_injective_witness : chain_url 1 <> chain_url (-1).
Proof.
  intros H. apply (proj1 (chain_url_injective 1 (-1))) in H. discriminate.
Defined.

(** X7.  Running the script a second time, against the same registry
    source and with the same clock reading, ends as the first run did and
    leaves the generated file exactly as the first run left it: nothing a
    run does to the log or to the file changes what the next run fetches
    or writes. *)
Theorem second_run_changes_nothing env registry st :
  let st1 := snd (main_over env registry st) in
  fst (main_over env registry st1) = fst (main_over env registry st)
  /\ const_file (snd (main_over env registry st1)) = const_file st1.
Proof.
  intros st1. subst st1. rewrite (main_over_run env registry st).
  destruct (fetch_chains_over env registry (logged_start env st))
    as [[ex|chains] s1] eqn:E1.
  - rewrite (bind_inl _ _ _ _ _ E1). simpl snd. simpl fst.
    rewrite (main_over_run env registry s1).
    pose proof (state_blind_fetch_chains env registry
                  (logged_start env s1) (logged_start env st)) as B.
    pose proof (keeps_file_fetch_chains env registry (logged_start env s1)) as K.
    rewrite E1 in B.
    destruct (fetch_chains_over env registry (logged_start env s1))
      as [[ex'|chains'] s2] eqn:E2; simpl in B; [|discriminate].
    injection B as ->. rewrite (bind_inl _ _ _ _ _ E2). simpl in K |- *.
    split; [reflexivity|exact K].
  - rewrite (bind_inr _ _ _ _ _ E1).
    assert (Again : forall s2 : State,
               exists s3,
                 fetch_chains_over env registry (logged_start env s2)
                 = (inr chains, s3)
                 /\ const_file s3 = const_file s2).
    { intros s2.
      pose proof (state_blind_fetch_chains env registry
                    (logged_start env s2) (logged_start env st)) as B.
      pose proof (keeps_file_fetch_chains env registry (logged_start env s2)) as K.
      rewrite E1 in B.
      destruct (fetch_chains_over env registry (logged_start env s2))
        as [[ex'|chains'] s3]; simpl in B; [discriminate|].
      injection B as ->. exists s3. split; [reflexivity|exact K]. }
    pose proof (write_chain_const_cases env chains) as W.
    destruct (open_error env) as [ex|].
    + rewrite W. simpl snd. simpl fst.
      destruct (Again s1) as (s3 & E3 & K3).
      rewrite (main_over_run env registry s1), (bind_inr _ _ _ _ _ E3), W.
      split; [reflexivity|exact K3].
    + destruct W as (r & p & Ew & _). rewrite Ew. simpl snd. simpl fst.
      destruct (Again (mkState (log s1) (Some p))) as (s3 & E3 & _).
      rewrite (main_over_run env registry _), (bind_inr _ _ _ _ _ E3), Ew.
      split; reflexivity.
Qed.

(** The run with the script's own Fetcher bound to the name is the run. *)
Lemma main_with_own_fetcher env registry :
  main_with (fetch_chain env) env registry = main_over env registry.
Proof. reflexivity. Qed.
